(** * Blue Eye drop-cam mission controller (blue_eye_v10.ino)

    A shallow embedding of the Arduino sketch: the sketch's functions become
    computations over an explicit [World] (clock, devices, SD card, event
    trace) driven by an [Env] oracle for everything the hardware decides
    (sensor readings, switch polls, connection attempts, SD card). *)

From Stdlib Require Import ZArith String Lia Bool.
From Stdlib Require Import Floats.SpecFloat.
From stdpp Require Import base list numbers strings.

Local Open Scope string_scope.
Local Open Scope list_scope.
Local Open Scope Z_scope.

(** ** Constants of the sketch *)

Definition oneMinute : Z := 60000.

Definition LEDstatus : Z := 0.
Definition LEDmagswitch : Z := 1.
Definition LEDwifi : Z := 2.
Definition DHTPin : Z := 3.
Definition chipSelect : Z := 4.
Definition lightsPin : Z := 5.
Definition magswitchPin : Z := 6.
Definition burnwirePin : Z := 7.

Definition localPort : Z := 7.
Definition broadCastIp : list Z := [10; 5; 5; 9].
Definition remote_MAC_ADD : list Z := [0xf6; 0xdd; 0x9e; 0x82; 0x7d; 0x4e].
Definition wolPort : Z := 9.
Definition host : string := "10.5.5.9".
Definition httpPort : Z := 80.

(** The status codes of WiFiNINA that the sketch names. *)
Definition WL_IDLE_STATUS : Z := 0.
Definition WL_CONNECTED : Z := 3.
Definition WL_NO_SHIELD : Z := 255.

(** The two mission settings ([int dropTime], [int recordingTime], minutes). *)
Record Config := mkConfig { dropTime : Z; recordingTime : Z }.

Definition shipped : Config := mkConfig 1 20.

(** ** Machine arithmetic

    [unsigned long] is 32 bits on the MKR board; [millis()] and the deadline
    [time_now + minutes * oneMinute] wrap modulo 2^32. *)

Definition ulong (z : Z) : Z := z mod 2 ^ 32.

(** ** Counted loops

    [for (i = lo; i < hi; i++)] visits [lo, lo+1, ..., hi-1];
    [for (i = hi; i > lo; i--)] visits [hi, hi-1, ..., lo+1]. *)

Definition upto (lo hi : Z) : list Z := seqZ lo (hi - lo).
Definition downto (hi lo : Z) : list Z := reverse (seqZ (lo + 1) (hi - lo)).

(** ** SendMagicPacket: building the 102-byte array

    The local state of the function is the array and [IndexArray].  The array
    starts with whatever the stack holds ([garbage]).  A byte is a [Z] in
    [0, 256).  Reading [remote_MAC_ADD] outside its six cells does not happen
    in the loops below; the default [0] only makes the lookup total. *)

Record PacketState := mkPS { magicPacket : list Z; IndexArray : Z }.

Definition store (st : PacketState) (v : Z) : PacketState :=
  mkPS (<[Z.to_nat (IndexArray st) := v]> (magicPacket st)) (IndexArray st + 1).

Definition fill_prefix (st : PacketState) : PacketState :=
  foldl (fun st _Cycle => store st 0xFF) st (upto 0 6).

Definition copy_mac (mac : list Z) (st : PacketState) : PacketState :=
  foldl (fun st CycleMacAdd => store st (mac !!! Z.to_nat CycleMacAdd)) st (upto 0 6).

Definition fill_body (mac : list Z) (st : PacketState) : PacketState :=
  foldl (fun st _Cycle => copy_mac mac st) st (upto 0 16).

Definition build_magic (mac garbage : list Z) : list Z :=
  magicPacket (fill_body mac (fill_prefix (mkPS garbage 0))).

(** The packet as the wire format describes it, for comparison. *)
Fixpoint repeat_mac (n : nat) (mac : list Z) : list Z :=
  match n with
  | O => []
  | S n => mac ++ repeat_mac n mac
  end.

Definition wake_packet_spec (mac : list Z) : list Z :=
  replicate 6 0xFF ++ repeat_mac 16 mac.

(** ** Sensor values

    [dht.readHumidity()] and [dht.readTemperature()] return a C [float]; a
    failed read is NaN.  IEEE values are [spec_float]s and the comparison of
    the sketch, [t > 80.0], is [SFltb] with the operands swapped. *)

Definition float := spec_float.

Definition isnan (f : float) : bool :=
  match f with S754_nan => true | _ => false end.

(** 80.0 = 10485760 * 2^-17, a 24-bit mantissa as in binary32. *)
Definition f80 : float := S754_finite false 10485760 (-17).

Definition over80 (t : float) : bool := SFltb f80 t.

(** One reading of the sensor: the two values and the time the two reads
    took (the sketch's comment puts it at about 250 ms). *)
Record Sample := mkSample { hum : float; temp : float; took : Z }.

(** ** Events, log entries and the SD card *)

Inductive Msg :=
| Text (s : string)
| StatusCode (n : Z)          (* String(status) *)
| Reading (h t : float).      (* "Humidity:  <h>%   Temperature:  <t>°C" *)

Inductive PinMode_ := INPUT_PULLUP | OUTPUT.

Inductive event :=
| PinMode (pin : Z) (m : PinMode_)
| DigitalWrite (pin : Z) (high : bool)
| AnalogWrite (pin : Z) (duty : Z)
| DigitalRead (pin : Z) (high : bool)
| Delay (ms : Z)
| Sensor (h t : float)
| Log (m : Msg)                                   (* a call of printInLog *)
| RtcBegin
| RtcSet (h m s : Z)
| DhtBegin
| SdBegin (ok : bool)
| WifiStatus (s : Z)
| WifiBegin (s : Z)
| WifiDisconnect
| UdpBegin (port : Z)
| UdpPacket (ip : list Z) (port : Z) (payload : list Z)
| UdpFlush
| UdpStop
| Connect (h : string) (port : Z) (ok : bool)     (* client.connect *)
| Send (request : string).                        (* client.print *)

(** A line of log.txt: [H:M:S<TAB>message]. *)
Record Entry := mkEntry { at_h : Z; at_m : Z; at_s : Z; text : Msg }.

(** What was done to log.txt, in order. *)
Inductive SdOp :=
| OpExists (found : bool)
| OpRemove
| OpAppend (e : Entry).

(** ** The environment: everything the hardware decides *)

Record Env := mkEnv {
  sd_card : bool;            (* SD.begin(chipSelect) *)
  sd_open : nat -> bool;     (* the k-th SD.open on an initialised card *)
  wifi_status : Z;           (* WiFi.status() in setup *)
  wifi_begin : Z;            (* WiFi.begin(ssid, pass) *)
  magswitch : nat -> bool;   (* the k-th digitalRead(magswitchPin), true = HIGH *)
  dht : nat -> Sample;       (* the k-th sensor reading *)
  connect : nat -> bool;     (* the k-th client.connect *)
  stack : nat -> Z           (* what the stack holds where magicPacket is put *)
}.

(** ** The world: clock, globals of the sketch, SD card, trace, cursors *)

Record World := mkWorld {
  clock : Z;                       (* milliseconds since boot, unwrapped *)
  trace : list event;
  time_now : Z;                    (* unsigned long time_now *)
  switchState : bool;              (* int switchState, true = HIGH *)
  status : Z;                      (* int status *)
  rtc_zero : Z;                    (* clock value at which the RTC read 0:0:0 *)
  sd_ready : bool;                 (* SD.begin has succeeded *)
  logfile : option (list Entry);   (* log.txt on the card, None = no file *)
  sd_ops : list SdOp;
  n_open : nat; n_poll : nat; n_dht : nat; n_connect : nat
}.

Definition boot (previous : option (list Entry)) : World :=
  mkWorld 0 [] 0 false WL_IDLE_STATUS 0 false previous [] 0 0 0 0.

Definition emit (e : event) (w : World) : World :=
  mkWorld (clock w) (trace w ++ [e]) (time_now w) (switchState w) (status w)
    (rtc_zero w) (sd_ready w) (logfile w) (sd_ops w)
    (n_open w) (n_poll w) (n_dht w) (n_connect w).

Definition tick (ms : Z) (w : World) : World :=
  mkWorld (clock w + ms) (trace w) (time_now w) (switchState w) (status w)
    (rtc_zero w) (sd_ready w) (logfile w) (sd_ops w)
    (n_open w) (n_poll w) (n_dht w) (n_connect w).

Definition set_time_now (t : Z) (w : World) : World :=
  mkWorld (clock w) (trace w) t (switchState w) (status w)
    (rtc_zero w) (sd_ready w) (logfile w) (sd_ops w)
    (n_open w) (n_poll w) (n_dht w) (n_connect w).

Definition set_switchState (b : bool) (w : World) : World :=
  mkWorld (clock w) (trace w) (time_now w) b (status w)
    (rtc_zero w) (sd_ready w) (logfile w) (sd_ops w)
    (n_open w) (n_poll w) (n_dht w) (n_connect w).

Definition set_status (s : Z) (w : World) : World :=
  mkWorld (clock w) (trace w) (time_now w) (switchState w) s
    (rtc_zero w) (sd_ready w) (logfile w) (sd_ops w)
    (n_open w) (n_poll w) (n_dht w) (n_connect w).

Definition set_rtc_zero (w : World) : World :=
  mkWorld (clock w) (trace w) (time_now w) (switchState w) (status w)
    (clock w) (sd_ready w) (logfile w) (sd_ops w)
    (n_open w) (n_poll w) (n_dht w) (n_connect w).

Definition set_sd (ready : bool) (f : option (list Entry)) (ops : list SdOp)
    (w : World) : World :=
  mkWorld (clock w) (trace w) (time_now w) (switchState w) (status w)
    (rtc_zero w) ready f ops
    (n_open w) (n_poll w) (n_dht w) (n_connect w).

Definition next_open (w : World) : World :=
  mkWorld (clock w) (trace w) (time_now w) (switchState w) (status w)
    (rtc_zero w) (sd_ready w) (logfile w) (sd_ops w)
    (S (n_open w)) (n_poll w) (n_dht w) (n_connect w).

Definition next_poll (w : World) : World :=
  mkWorld (clock w) (trace w) (time_now w) (switchState w) (status w)
    (rtc_zero w) (sd_ready w) (logfile w) (sd_ops w)
    (n_open w) (S (n_poll w)) (n_dht w) (n_connect w).

Definition next_dht (w : World) : World :=
  mkWorld (clock w) (trace w) (time_now w) (switchState w) (status w)
    (rtc_zero w) (sd_ready w) (logfile w) (sd_ops w)
    (n_open w) (n_poll w) (S (n_dht w)) (n_connect w).

Definition next_connect (w : World) : World :=
  mkWorld (clock w) (trace w) (time_now w) (switchState w) (status w)
    (rtc_zero w) (sd_ready w) (logfile w) (sd_ops w)
    (n_open w) (n_poll w) (n_dht w) (S (n_connect w)).

(** ** The monad of the sketch

    A computation either returns, or the controller stops making progress:
    it spins in [while (1);], sits in the terminal idle loop, or the model's
    fuel for an unbounded loop ran out.  The world reached is kept in every
    case. *)

Inductive Reason := Halted | Idle | OutOfFuel.

Inductive Outcome (A : Type) :=
| Ret (a : A) (w : World)
| Stop (r : Reason) (w : World).
Arguments Ret {A} a w.
Arguments Stop {A} r w.

Definition M (A : Type) : Type := World -> Outcome A.

Definition ret {A} (a : A) : M A := fun w => Ret a w.

Definition bind {A B} (m : M A) (k : A -> M B) : M B := fun w =>
  match m w with
  | Ret a w' => k a w'
  | Stop r w' => Stop r w'
  end.

Notation "x <- m ;; k" := (bind m (fun x => k))
  (at level 100, m at next level, right associativity).
Notation "m ;; k" := (bind m (fun _ => k))
  (at level 100, right associativity).

Definition final {A} (o : Outcome A) : World :=
  match o with Ret _ w => w | Stop _ w => w end.

Definition act (f : World -> World) : M unit := fun w => Ret tt (f w).

Fixpoint for_each {A} (body : A -> M unit) (l : list A) : M unit :=
  match l with
  | [] => ret tt
  | x :: l => body x ;; for_each body l
  end.

Fixpoint while (fuel : nat) (cond : M bool) (body : M unit) : M unit :=
  match fuel with
  | O => Stop OutOfFuel
  | S fuel =>
      b <- cond ;;
      if b : bool then body ;; while fuel cond body else ret tt
  end.

(** [while (1);] and [while (justWait == true) {}] ([justWait] is never
    written). *)
Definition spin : M unit := Stop Halted.
Definition idle : M unit := Stop Idle.

(** ** Arduino primitives *)

Definition millis : M Z := fun w => Ret (ulong (clock w)) w.

Definition delay (ms : Z) : M unit := act (fun w => emit (Delay ms) (tick ms w)).

Definition pinMode (pin : Z) (m : PinMode_) : M unit := act (emit (PinMode pin m)).

Definition digitalWrite (pin : Z) (high : bool) : M unit :=
  act (emit (DigitalWrite pin high)).

Definition analogWrite (pin : Z) (duty : Z) : M unit :=
  act (emit (AnalogWrite pin duty)).

Definition digitalRead_magswitch (env : Env) : M bool := fun w =>
  let b := magswitch env (n_poll w) in
  Ret b (emit (DigitalRead magswitchPin b) (next_poll w)).

Definition read_dht (env : Env) : M Sample := fun w =>
  let s := dht env (n_dht w) in
  Ret s (emit (Sensor (hum s) (temp s)) (tick (took s) (next_dht w))).

Definition client_connect (env : Env) (h : string) (port : Z) : M bool := fun w =>
  let ok := connect env (n_connect w) in
  Ret ok (emit (Connect h port ok) (next_connect w)).

Definition client_print (request : string) : M unit := act (emit (Send request)).

Definition CRLF : string :=
  String (Ascii.ascii_of_nat 13) (String (Ascii.ascii_of_nat 10) EmptyString).

(** ** The event log

    [SD.open] fails on a card that [SD.begin] has not initialised; on an
    initialised card the environment decides.  [FILE_WRITE] creates the file
    when it is missing and appends otherwise. *)

Definition stamp (w : World) (m : Msg) : Entry :=
  let s := (clock w - rtc_zero w) / 1000 in
  mkEntry (s / 3600 mod 24) (s / 60 mod 60) (s mod 60) m.

Definition append_line (e : Entry) (w : World) : World :=
  set_sd (sd_ready w) (Some (default [] (logfile w) ++ [e]))
    (sd_ops w ++ [OpAppend e]) w.

Definition printInLog (env : Env) (m : Msg) : M unit := fun w =>
  let w := emit (Log m) w in
  if sd_ready w then
    if sd_open env (n_open w)
    then Ret tt (append_line (stamp w m) (next_open w))
    else Ret tt (next_open w)
  else Ret tt w.

Definition initializeLog : M unit := fun w =>
  match logfile w with
  | Some _ =>
      Ret tt (set_sd (sd_ready w) None (sd_ops w ++ [OpExists true; OpRemove]) w)
  | None =>
      Ret tt (set_sd (sd_ready w) None (sd_ops w ++ [OpExists false]) w)
  end.

Definition SD_begin (env : Env) : M bool := fun w =>
  let ok := sd_card env in
  Ret ok (set_sd ok (logfile w) (sd_ops w) (emit (SdBegin ok) w)).

(** ** Release actuator *)

Definition BurnWire (env : Env) : M unit :=
  printInLog env (Text "Burning wire") ;;
  digitalWrite burnwirePin true ;;
  delay (oneMinute * 10) ;;
  digitalWrite burnwirePin false ;;
  printInLog env (Text "End of mission. blue_eye is coming up!").

(** ** Environmental monitor *)

Definition readDHT22Values (env : Env) : M unit :=
  s <- read_dht env ;;
  let h := hum s in
  let t := temp s in
  (if over80 t then BurnWire env else ret tt) ;;
  if isnan h || isnan t
  then printInLog env (Text "Failed to read from DHT sensor")
  else printInLog env (Reading h t).

(** ** Remote device controller *)

(** [byte magicPacket[102]] is not initialised: 102 bytes of stack. *)
Definition uninitialised (env : Env) : list Z :=
  map (fun i => stack env i mod 256) (seq 0 102).

(** [Udp.write(magicPacket, sizeof magicPacket)] sends the first 102 bytes. *)
Definition SendMagicPacket (env : Env) : M unit :=
  act (emit (UdpPacket broadCastIp wolPort
               (take 102 (build_magic remote_MAC_ADD (uninitialised env))))).

Definition WakeupGoPro (env : Env) : M unit :=
  act (emit (UdpBegin localPort)) ;;
  delay 2000 ;;
  SendMagicPacket env ;;
  delay 6000 ;;
  act (emit UdpFlush) ;;
  delay 1000 ;;
  act (emit UdpStop) ;;
  delay 1000 ;;
  printInLog env (Text "Waking up GoPro").

Definition StartUrl : string := "/gp/gpControl/command/shutter?p=1".
Definition StopUrl : string := "/gp/gpControl/command/shutter?p=0".

Definition StartRecording (env : Env) : M unit :=
  ok <- client_connect env "10.5.5.9" httpPort ;;
  if negb ok then printInLog env (Text "Start recording failed")
  else
    client_print ("GET " +:+ StartUrl +:+ " HTTP/1.1" +:+ CRLF +:+
                  "Host: " +:+ host +:+ CRLF +:+
                  "Connection: close" +:+ CRLF +:+ CRLF) ;;
    printInLog env (Text "GoPro started recording").

Definition StopRecording (env : Env) : M unit :=
  ok <- client_connect env "10.5.5.9" httpPort ;;
  if negb ok then printInLog env (Text "Stop recording failed")
  else
    client_print ("GET " +:+ StopUrl +:+ " HTTP/1.1" +:+ CRLF +:+
                  "Host: " +:+ host +:+ CRLF +:+
                  "Connection: close" +:+ CRLF +:+ CRLF) ;;
    printInLog env (Text "GoPro stopped recording").

(** [status] is assigned once, before the loop; the loop body never
    refreshes it. *)
Definition ConnectToGoPro (env : Env) (fuel : nat) : M unit :=
  (fun w => let s := wifi_begin env in
            Ret tt (set_status s (emit (WifiBegin s) w))) ;;
  while fuel (fun w => Ret (negb (status w =? WL_CONNECTED)) w)
    (printInLog env (Text "Arduino is attempting to connect to GoPro's WiFi ...") ;;
     (fun w => printInLog env (StatusCode (status w)) w) ;;
     for_each (fun _ =>
         digitalWrite LEDwifi true ;; delay 1000 ;;
         digitalWrite LEDwifi false ;; delay 1000) (upto 0 2)) ;;
  printInLog env (Text "Arduino is connected to GoPro's WiFi network") ;;
  digitalWrite LEDwifi true ;;
  for_each (fun _ =>
      digitalWrite lightsPin true ;; delay 500 ;;
      digitalWrite lightsPin false ;; delay 500) (upto 0 3).

Definition DisconnectFromGoPro : M unit :=
  act (emit WifiDisconnect) ;;
  digitalWrite LEDwifi false.

(** ** Trigger detector *)

Definition MagneticSwitch (env : Env) (fuel : nat) : M unit :=
  digitalWrite LEDmagswitch false ;;
  (b <- digitalRead_magswitch env ;; act (set_switchState b)) ;;
  while fuel (fun w => Ret (switchState w) w)
    (b <- digitalRead_magswitch env ;; act (set_switchState b)) ;;
  digitalWrite LEDmagswitch true ;;
  printInLog env (Text "Magnetic switch activated").

(** ** Mission sequencer *)

Definition setup (env : Env) (fuel : nat) : M unit :=
  pinMode magswitchPin INPUT_PULLUP ;;
  pinMode lightsPin OUTPUT ;;
  pinMode burnwirePin OUTPUT ;;
  digitalWrite burnwirePin false ;;
  pinMode LEDstatus OUTPUT ;;
  pinMode LEDmagswitch OUTPUT ;;
  pinMode LEDwifi OUTPUT ;;
  digitalWrite LEDstatus true ;;
  printInLog env (Text "Hello! Welcome to the blue_eye 2.0") ;;
  act (emit RtcBegin) ;;
  act (fun w => set_rtc_zero (emit (RtcSet 0 0 0) w)) ;;
  act (emit DhtBegin) ;;
  (ok <- SD_begin env ;;
   if negb ok
   then printInLog env (Text "SD card failed, or not present in MEM Shield") ;; spin
   else initializeLog) ;;
  (act (emit (WifiStatus (wifi_status env))) ;;
   if wifi_status env =? WL_NO_SHIELD
   then printInLog env (Text "WiFi chipset not present in Arduino") ;; spin
   else ret tt) ;;
  ConnectToGoPro env fuel.

(** The cadence loop of both wait phases:
    [while (millis() < time_now + (minutes * oneMinute))
       { readDHT22Values(); delay(oneMinute); }].
    The product is an [int], the sum an [unsigned long]; both wrap modulo
    2^32, so the deadline is the exact sum reduced once. *)
Definition deadline (minutes : Z) (w : World) : Z :=
  ulong (time_now w + minutes * oneMinute).

Definition sample_until (env : Env) (fuel : nat) (minutes : Z) : M unit :=
  while fuel
    (now <- millis ;; fun w => Ret (now <? deadline minutes w) w)
    (readDHT22Values env ;; delay oneMinute).

Definition mark_time : M unit :=
  now <- millis ;; act (set_time_now now).

(** loop(), lines 148-161. *)
Definition descent (cfg : Config) (env : Env) (fuel : nat) : M unit :=
  MagneticSwitch env fuel ;;
  WakeupGoPro env ;;
  mark_time ;;
  printInLog env (Text "blue_eye on its way to the deep sea") ;;
  sample_until env fuel (dropTime cfg) ;;
  printInLog env (Text "blue_eye arrived to the seabed").

(** for(int i=0; i<255; i++){ analogWrite(lightsPin, i); delay(5); } *)
Definition rampUp : M unit :=
  for_each (fun i => analogWrite lightsPin i ;; delay 5) (upto 0 255).

(** for(int i=255; i>0; i--){ analogWrite(lightsPin, i); delay(50); } *)
Definition rampDown : M unit :=
  for_each (fun i => analogWrite lightsPin i ;; delay 50) (downto 255 0).

(** loop(), lines 163-179. *)
Definition recording (cfg : Config) (env : Env) (fuel : nat) : M unit :=
  printInLog env (Text "Turning lights on") ;;
  rampUp ;;
  StartRecording env ;;
  mark_time ;;
  sample_until env fuel (recordingTime cfg).

(** loop(), lines 183-202. *)
Definition recovery (env : Env) : M unit :=
  StopRecording env ;;
  rampDown ;;
  digitalWrite lightsPin false ;;
  printInLog env (Text "Turning lights off") ;;
  BurnWire env ;;
  DisconnectFromGoPro ;;
  digitalWrite LEDmagswitch false ;;
  idle.

Definition loop_ (cfg : Config) (env : Env) (fuel : nat) : M unit :=
  descent cfg env fuel ;;
  recording cfg env fuel ;;
  recovery env.

(** The Arduino core calls setup() once and then loop(); loop() never
    returns, so it runs once. *)
Definition program (cfg : Config) (env : Env) (fuel : nat) : M unit :=
  setup env fuel ;; loop_ cfg env fuel.

(** ** Observations on traces *)

Definition is_release (e : event) : bool :=
  match e with DigitalWrite p true => p =? burnwirePin | _ => false end.

Definition is_sample (e : event) : bool :=
  match e with Sensor _ _ => true | _ => false end.

Definition is_fault (e : event) : bool :=
  match e with Sensor _ t => over80 t | _ => false end.

Definition is_connect (e : event) : bool :=
  match e with Connect _ _ _ => true | _ => false end.

Definition is_ramp_write (e : event) : bool :=
  match e with AnalogWrite p _ => p =? lightsPin | _ => false end.

Definition is_net (e : event) : bool :=
  match e with Connect _ _ _ | Send _ => true | _ => false end.

Fixpoint count (p : event -> bool) (tr : list event) : nat :=
  match tr with
  | [] => O
  | e :: tr => if p e then S (count p tr) else count p tr
  end.

Fixpoint keep (p : event -> bool) (tr : list event) : list event :=
  match tr with
  | [] => []
  | e :: tr => if p e then e :: keep p tr else keep p tr
  end.

Fixpoint first_index (p : event -> bool) (tr : list event) : option nat :=
  match tr with
  | [] => None
  | e :: tr => if p e then Some O else S <$> first_index p tr
  end.

Definition releases (tr : list event) : nat := count is_release tr.
Definition faults (tr : list event) : nat := count is_fault tr.

(** Duties written to the lights with analogWrite, in order. *)
Fixpoint duties (tr : list event) : list Z :=
  match tr with
  | [] => []
  | AnalogWrite p d :: tr => if p =? lightsPin then d :: duties tr else duties tr
  | _ :: tr => duties tr
  end.

(** The events a computation added to the trace. *)
Definition new_events (w w' : World) : list event :=
  drop (length (trace w)) (trace w').

(** An event outside a sample and outside a release. *)
Definition quiet (e : event) : bool := negb (is_release e) && negb (is_sample e).

(** ** Expected event sequences *)

Definition burn_events : list event :=
  [ Log (Text "Burning wire");
    DigitalWrite burnwirePin true;
    Delay (oneMinute * 10);
    DigitalWrite burnwirePin false;
    Log (Text "End of mission. blue_eye is coming up!") ].

Definition sample_log (s : Sample) : Msg :=
  if isnan (hum s) || isnan (temp s)
  then Text "Failed to read from DHT sensor"
  else Reading (hum s) (temp s).

Definition sample_events (s : Sample) : list event :=
  Sensor (hum s) (temp s) ::
  (if over80 (temp s) then burn_events else []) ++ [Log (sample_log s)].

(** What an iteration of a wait loop adds to the sampling interval: the
    time of the sensor read and, on a fault, the hold of the release. *)
Definition overhead (s : Sample) : Z :=
  took s + (if over80 (temp s) then oneMinute * 10 else 0).

(** [issueCommand(path)] as the design describes it: one connection attempt;
    on failure a log entry and nothing else; on success one request. *)
Definition request (path : string) : string :=
  "GET " +:+ path +:+ " HTTP/1.1" +:+ CRLF +:+
  "Host: " +:+ host +:+ CRLF +:+
  "Connection: close" +:+ CRLF +:+ CRLF.

Definition issueCommand (env : Env) (path failed done : string) : M unit :=
  ok <- client_connect env "10.5.5.9" httpPort ;;
  if ok then client_print (request path) ;; printInLog env (Text done)
  else printInLog env (Text failed).

Definition command_events (path failed done : string) (ok : bool) : list event :=
  Connect "10.5.5.9" httpPort ok ::
  (if ok then [Send (request path); Log (Text done)] else [Log (Text failed)]).

Definition ramp_events (ms : Z) (levels : list Z) : list event :=
  flat_map (fun i => [AnalogWrite lightsPin i; Delay ms]) levels.

Definition recovery_events (ok : bool) : list event :=
  command_events StopUrl "Stop recording failed" "GoPro stopped recording" ok ++
  ramp_events 50 (downto 255 0) ++
  [DigitalWrite lightsPin false; Log (Text "Turning lights off")] ++
  burn_events ++
  [WifiDisconnect; DigitalWrite LEDwifi false; DigitalWrite LEDmagswitch false].

(** A stretch of trace made of quiet events and of whole samples. *)
Inductive blocks : list event -> Prop :=
| blocks_nil : blocks []
| blocks_quiet e tr : quiet e = true -> blocks tr -> blocks (e :: tr)
| blocks_sample s tr : blocks tr -> blocks (sample_events s ++ tr).

(** The card after [initializeLog]: what it did to a card that held
    [previous], then the entries appended since. *)
Definition truncation (previous : option (list Entry)) : list SdOp :=
  match previous with
  | Some _ => [OpExists true; OpRemove]
  | None => [OpExists false]
  end.

Definition grow (f : option (list Entry)) (lines : list Entry) : option (list Entry) :=
  match lines with
  | [] => f
  | _ => Some (default [] f ++ lines)
  end.

(** ** Concrete missions used as test inputs *)

Definition f20 : float := S754_finite false 10485760 (-19).   (* 20.0 *)
Definition f85 : float := S754_finite false 11141120 (-17).   (* 85.0 *)

Definition calm : Sample := mkSample f20 f20 0.
Definition hot : Sample := mkSample f20 f85 0.
Definition at80 : Sample := mkSample f20 f80 0.
Definition hot_blind : Sample := mkSample S754_nan f85 0.

(** One minute of descent, two of recording; the switch trips at the third
    poll; everything else works. *)
Definition short_mission : Config := mkConfig 1 2.

Definition env_with (readings : nat -> Sample) (link : nat -> bool) : Env :=
  mkEnv true (fun _ => true) WL_IDLE_STATUS WL_CONNECTED
        (fun k => (k <? 2)%nat) readings link (fun _ => 0).

Definition env_calm : Env := env_with (fun _ => calm) (fun _ => true).

(** The second reading, the first of the recording phase, is 85 degrees. *)
Definition env_hot : Env :=
  env_with (fun k => if (k =? 1)%nat then hot else calm) (fun _ => true).

Definition env_at80 : Env := env_with (fun _ => at80) (fun _ => true).

(** [precedes p q tr]: the first [p] event of [tr] comes before its first
    [q] event (both exist). *)
Definition precedes (p q : event -> bool) (tr : list event) : bool :=
  match first_index p tr, first_index q tr with
  | Some i, Some j => (i <? j)%nat
  | _, _ => false
  end.

(** A link that refuses every connection. *)
Definition env_no_link : Env := env_with (fun _ => calm) (fun _ => false).

(** ** Specification vocabulary

    [effect w w' evs dt]: going from [w] to [w'] added the events [evs],
    took [dt] milliseconds and left [time_now] and the oracle cursors of the
    switch, the sensor and the link alone. *)

Record effect (w w' : World) (evs : list event) (dt : Z) : Prop := mkEffect {
  eff_trace : trace w' = trace w ++ evs;
  eff_clock : clock w' = clock w + dt;
  eff_time_now : time_now w' = time_now w;
  eff_poll : n_poll w' = n_poll w;
  eff_dht : n_dht w' = n_dht w;
  eff_connect : n_connect w' = n_connect w
}.

(** [m] returns from [w], with that effect. *)
Definition runs (m : M unit) (w : World) (evs : list event) (dt : Z) : Prop :=
  exists w', m w = Ret tt w' /\ effect w w' evs dt.

(** [m] keeps the relation [R] between the world it starts in and the world
    it ends in, however it ends, and does not end in the terminal idle. *)
Definition steady (R : World -> World -> Prop) {A} (m : M A) : Prop :=
  forall w,
    match m w with
    | Ret _ w' => R w w'
    | Stop r w' => r <> Idle /\ R w w'
    end.

(** The trace grew by quiet events and whole samples. *)
Definition grew_blocks (w w' : World) : Prop :=
  exists evs, trace w' = trace w ++ evs /\ blocks evs.

(** The card was only appended to, and not at all before SD.begin. *)
Definition appended (w w' : World) : Prop :=
  sd_ready w' = sd_ready w /\
  exists lines,
    sd_ops w' = sd_ops w ++ map OpAppend lines /\
    logfile w' = grow (logfile w) lines /\
    (sd_ready w = false -> lines = []).

(** [m] keeps [R] between the world it starts in and the world it ends in,
    however it ends. *)
Definition keeps (R : World -> World -> Prop) {A} (m : M A) : Prop :=
  forall w, R w (final (m w)).

(** From a world where [P] holds, [m] returns to a world where [Q] holds or
    stops in a world where [F] holds. *)
Definition ensures (P : World -> Prop) {A} (m : M A) (Q F : World -> Prop) : Prop :=
  forall w, P w ->
    match m w with
    | Ret _ w' => Q w'
    | Stop _ w' => F w'
    end.

(** The card at boot: not initialised, nothing done to it, log.txt as the
    previous mission left it. *)
Definition untouched (previous : option (list Entry)) (w : World) : Prop :=
  sd_ready w = false /\ sd_ops w = [] /\ logfile w = previous.

(** The card once initializeLog has run: one truncation, then appends only,
    and log.txt holds exactly the appended entries. *)
Definition truncated_then_appended (previous : option (list Entry)) (w : World) : Prop :=
  exists lines,
    sd_ops w = truncation previous ++ map OpAppend lines
    /\ logfile w = grow None lines.




(** ** Further observations *)

Definition is_wifi_begin (e : event) : bool :=
  match e with WifiBegin _ => true | _ => false end.

(** What a bystander without access to the card sees of a world: the
    clock, the trace and the sketch's own state. *)
Record Device := mkDevice {
  d_clock : Z; d_trace : list event; d_time_now : Z; d_switch : bool;
  d_status : Z; d_rtc : Z; d_poll : nat; d_dht : nat; d_connect : nat
}.

Definition device (w : World) : Device :=
  mkDevice (clock w) (trace w) (time_now w) (switchState w) (status w)
           (rtc_zero w) (n_poll w) (n_dht w) (n_connect w).

(** The same environment with another SD sink. *)
Definition with_sd_open (env : Env) (g : nat -> bool) : Env :=
  mkEnv (sd_card env) g (wifi_status env) (wifi_begin env) (magswitch env)
        (dht env) (connect env) (stack env).

(** Two outcomes a bystander cannot tell apart. *)
Definition same_device {A} (o1 o2 : Outcome A) : Prop :=
  match o1, o2 with
  | Ret a1 w1, Ret a2 w2 => a1 = a2 /\ device w1 = device w2
  | Stop r1 w1, Stop r2 w2 => r1 = r2 /\ device w1 = device w2
  | _, _ => False
  end.

Definition alike {A} (m1 m2 : M A) : Prop :=
  forall w1 w2, device w1 = device w2 -> same_device (m1 w1) (m2 w2).

(** The events of setup up to and including dht.begin(). *)
Definition setup_prologue : list event :=
  [ PinMode magswitchPin INPUT_PULLUP; PinMode lightsPin OUTPUT;
    PinMode burnwirePin OUTPUT; DigitalWrite burnwirePin false;
    PinMode LEDstatus OUTPUT; PinMode LEDmagswitch OUTPUT; PinMode LEDwifi OUTPUT;
    DigitalWrite LEDstatus true;
    Log (Text "Hello! Welcome to the blue_eye 2.0");
    RtcBegin; RtcSet 0 0 0; DhtBegin ].

(** A switch that is never tripped. *)
Definition env_untripped : Env :=
  mkEnv true (fun _ => true) WL_IDLE_STATUS WL_CONNECTED (fun _ => true)
        (fun _ => calm) (fun _ => true) (fun _ => 0).

(** [atmost p n w w']: from [w] to [w'] the trace grew by at most [n] events
    that satisfy [p]. *)
Definition atmost (p : event -> bool) (n : nat) (w w' : World) : Prop :=
  exists evs, trace w' = trace w ++ evs /\ (count p evs <= n)%nat.

Definition is_wake (e : event) : bool :=
  match e with UdpPacket _ _ _ => true | _ => false end.

(** What the mission proper does to the outside world: dimming the lights,
    energising the burn wire, sampling the sensor, talking to the camera.
    (The status LEDs and the three on/off blinks of the lights in setup are
    not counted.) *)
Definition is_action (e : event) : bool :=
  match e with
  | AnalogWrite _ _ | Sensor _ _ | UdpBegin _ | UdpPacket _ _ _ | UdpFlush | UdpStop
  | Connect _ _ _ | Send _ | WifiDisconnect => true
  | DigitalWrite p true => p =? burnwirePin
  | _ => false
  end.

Definition is_low_read (e : event) : bool :=
  match e with DigitalRead p false => p =? magswitchPin | _ => false end.

(** The last write, digital or analog, to a pin. *)
Definition writes_to (pin : Z) (e : event) : bool :=
  match e with
  | DigitalWrite p _ | AnalogWrite p _ => p =? pin
  | _ => false
  end.

Fixpoint last_write (pin : Z) (tr : list event) : option event :=
  match tr with
  | [] => None
  | e :: tr =>
      match last_write pin tr with
      | Some e' => Some e'
      | None => if writes_to pin e then Some e else None
      end
  end.

(** ** The trace of a completed mission *)

(** What a wait loop adds to the trace: for each sample its events, then the
    sampling interval. *)
Definition wait_events (ss : list Sample) : list event :=
  flat_map (fun s => sample_events s ++ [Delay oneMinute]) ss.

(** What the sequencer does between the two wait loops: lights up, then the
    start command. *)
Definition seabed_events (ok : bool) : list event :=
  [Log (Text "blue_eye arrived to the seabed"); Log (Text "Turning lights on")]
  ++ ramp_events 5 (upto 0 255)
  ++ command_events StartUrl "Start recording failed" "GoPro started recording" ok.

(** What is left of a mission after an iteration of the recording wait
    loop: the samples [ss] still to come, then the recovery. *)
Definition rest_of_recording (ss : list Sample) (ok : bool) : list event :=
  wait_events ss ++ recovery_events ok.

(** What is left of a mission after an iteration of the descent wait loop:
    the samples [ss1] still to come, the arrival, the whole recording, then
    the recovery. *)
Definition rest_of_descent (ss1 : list Sample) (ok1 : bool)
    (ss2 : list Sample) (ok2 : bool) : list event :=
  wait_events ss1 ++ seabed_events ok1 ++ rest_of_recording ss2 ok2.

(** The milliseconds the sketch asked of delay(). *)
Fixpoint waited (tr : list event) : Z :=
  match tr with
  | [] => 0
  | Delay ms :: tr => ms + waited tr
  | _ :: tr => waited tr
  end.

(** Whenever [m] returns, it has taken no sample and has asked [c]
    milliseconds of delay(). *)
Definition lands (c : Z) {A} (m : M A) : Prop :=
  forall w a w', m w = Ret a w' ->
    exists evs,
      trace w' = trace w ++ evs /\ count is_sample evs = 0%nat /\ waited evs = c.

(** * Proofs *)

(** ** The wake packet *)

Section MagicPacket.
Implicit Types (done rest : list Z) (st : PacketState).

Lemma store_next done x rest v :
  store (mkPS (done ++ x :: rest) (Z.of_nat (length done))) v
  = mkPS ((done ++ [v]) ++ rest) (Z.of_nat (length (done ++ [v]))).
Proof.
  unfold store; cbn [magicPacket IndexArray].
  rewrite Nat2Z.id, length_app; cbn [length].
  f_equal; [|lia].
  rewrite insert_app_r_alt by lia.
  replace (length done - length done)%nat with 0%nat by lia.
  cbn. now rewrite <- app_assoc.
Qed.

(** Storing one value per index of [ixs], starting where [done] ends,
    overwrites as many cells of [rest]. *)
Lemma store_run (f : Z -> Z) (ixs : list Z) : forall done rest,
  (length ixs <= length rest)%nat ->
  foldl (fun st i => store st (f i)) (mkPS (done ++ rest) (Z.of_nat (length done))) ixs
  = mkPS (done ++ map f ixs ++ drop (length ixs) rest)
         (Z.of_nat (length done + length ixs)).
Proof.
  induction ixs as [|i ixs IH]; intros done rest Hlen.
  - cbn. now rewrite Nat.add_0_r.
  - destruct rest as [|x rest]; cbn in Hlen; [lia|].
    cbn [foldl]. rewrite store_next, IH by lia.
    rewrite length_app; cbn [length map drop].
    rewrite <- app_assoc. f_equal. lia.
Qed.

Lemma length_upto (n : nat) : length (upto 0 (Z.of_nat n)) = n.
Proof. unfold upto. rewrite length_seqZ. lia. Qed.

Lemma fill_prefix_run done rest :
  (6 <= length rest)%nat ->
  fill_prefix (mkPS (done ++ rest) (Z.of_nat (length done)))
  = mkPS (done ++ replicate 6 0xFF ++ drop 6 rest) (Z.of_nat (length done + 6)).
Proof.
  intros H. unfold fill_prefix.
  rewrite (store_run (fun _ => 0xFF) (upto 0 6) done rest) by exact H.
  reflexivity.
Qed.

Lemma copy_mac_run mac done rest :
  length mac = 6%nat -> (6 <= length rest)%nat ->
  copy_mac mac (mkPS (done ++ rest) (Z.of_nat (length done)))
  = mkPS (done ++ mac ++ drop 6 rest) (Z.of_nat (length done + 6)).
Proof.
  intros Hmac H. unfold copy_mac.
  rewrite (store_run (fun i => mac !!! Z.to_nat i) (upto 0 6) done rest) by exact H.
  do 7 (destruct mac as [|? mac]; try discriminate).
  reflexivity.
Qed.

Lemma fill_body_run mac (n : nat) : forall done rest,
  length mac = 6%nat -> (6 * n <= length rest)%nat ->
  foldl (fun st _ => copy_mac mac st)
        (mkPS (done ++ rest) (Z.of_nat (length done)))
        (upto 0 (Z.of_nat n))
  = mkPS (done ++ repeat_mac n mac ++ drop (6 * n) rest)
         (Z.of_nat (length done + 6 * n)).
Proof.
  intros done rest Hmac.
  assert (Hgen : forall (ixs : list Z) done rest,
    (6 * length ixs <= length rest)%nat ->
    foldl (fun st _ => copy_mac mac st)
          (mkPS (done ++ rest) (Z.of_nat (length done))) ixs
    = mkPS (done ++ repeat_mac (length ixs) mac ++ drop (6 * length ixs) rest)
           (Z.of_nat (length done + 6 * length ixs))).
  { clear done rest.
    induction ixs as [|i ixs IH]; intros done rest H.
    - cbn. now rewrite Nat.add_0_r.
    - cbn [foldl length] in *.
      rewrite copy_mac_run by (trivial; lia).
      replace (Z.of_nat (length done + 6)) with (Z.of_nat (length (done ++ mac)))
        by (rewrite length_app; lia).
      rewrite app_assoc, IH by (rewrite length_drop; lia).
      rewrite length_app, Hmac, drop_drop; cbn [repeat_mac].
      rewrite <- !app_assoc.
      f_equal; [do 4 f_equal|]; lia. }
  intros H. specialize (Hgen (upto 0 (Z.of_nat n)) done rest).
  rewrite length_upto in Hgen. now apply Hgen.
Qed.

(** Whatever the array held, the loops leave the wire format in it. *)
Lemma build_magic_spec mac garbage :
  length mac = 6%nat -> length garbage = 102%nat ->
  build_magic mac garbage = wake_packet_spec mac.
Proof.
  intros Hmac Hg. unfold build_magic, wake_packet_spec.
  change (mkPS garbage 0) with (mkPS ([] ++ garbage) (Z.of_nat (length (@nil Z)))).
  rewrite fill_prefix_run by lia.
  cbn [app length Nat.add].
  change (Z.of_nat 6) with (Z.of_nat (length (replicate 6 0xFF))).
  unfold fill_body.
  rewrite (fill_body_run mac 16) by (trivial; rewrite length_drop; lia).
  cbn [magicPacket]. rewrite drop_drop.
  rewrite (drop_ge garbage) by lia.
  now rewrite app_nil_r.
Qed.

Lemma length_repeat_mac n mac : length (repeat_mac n mac) = (n * length mac)%nat.
Proof. induction n; cbn; [|rewrite length_app, IHn]; lia. Qed.

Lemma lookup_repeat_mac mac (n i : nat) :
  length mac <> 0%nat -> (i < n * length mac)%nat ->
  repeat_mac n mac !! i = mac !! (i mod length mac)%nat.
Proof.
  intros Hm. revert i.
  induction n as [|n IH]; intros i Hi; [lia|].
  cbn [repeat_mac].
  destruct (decide (i < length mac)%nat) as [Hlt|Hge].
  - rewrite lookup_app_l by exact Hlt. now rewrite Nat.mod_small.
  - rewrite lookup_app_r by lia.
    rewrite IH by lia.
    f_equal.
    replace i with ((i - length mac) + 1 * length mac)%nat at 2 by lia.
    now rewrite Nat.Div0.mod_add.
Qed.

Lemma length_uninitialised env : length (uninitialised env) = 102%nat.
Proof. unfold uninitialised. now rewrite length_map, length_seq. Qed.
End MagicPacket.

(** C3. Every wake packet that SendMagicPacket broadcasts is exactly 102
    bytes long; bytes 0 to 5 are 0xFF; byte [i] for [6 <= i < 102] is byte
    [(i - 6) mod 6] of the remote hardware identifier; and the packet is the
    same whatever the world and the environment are (the bytes the array
    held before, in particular). *)
Theorem wake_packet_layout (env : Env) (w : World) :
  exists pkt : list Z,
    SendMagicPacket env w = Ret tt (emit (UdpPacket broadCastIp wolPort pkt) w)
    /\ pkt = wake_packet_spec remote_MAC_ADD
    /\ length pkt = 102%nat
    /\ (forall i, (i < 6)%nat -> pkt !! i = Some 0xFF)
    /\ (forall i, (6 <= i < 102)%nat ->
          pkt !! i = remote_MAC_ADD !! ((i - 6) mod 6)%nat).
Proof.
  exists (wake_packet_spec remote_MAC_ADD).
  split.
  { unfold SendMagicPacket, act.
    rewrite build_magic_spec by (trivial; apply length_uninitialised).
    reflexivity. }
  split; [reflexivity|].
  split; [reflexivity|].
  split.
  - intros i Hi. unfold wake_packet_spec.
    rewrite lookup_app_l by (rewrite length_replicate; lia).
    now apply lookup_replicate_2.
  - intros i Hi. unfold wake_packet_spec.
    rewrite lookup_app_r by (rewrite length_replicate; lia).
    rewrite length_replicate.
    apply (lookup_repeat_mac remote_MAC_ADD 16 (i - 6)); cbn; lia.
Qed.

(** ** Reasoning about computations *)

Lemma bind_Ret {A B} (m : M A) (k : A -> M B) w a w1 :
  m w = Ret a w1 -> bind m k w = k a w1.
Proof. unfold bind. now intros ->. Qed.

Lemma bind_Stop {A B} (m : M A) (k : A -> M B) w r w1 :
  m w = Stop r w1 -> bind m k w = Stop r w1.
Proof. unfold bind. now intros ->. Qed.

Section Steady.
Variable R : World -> World -> Prop.
Hypothesis R_refl : forall w, R w w.
Hypothesis R_trans : forall a b c, R a b -> R b c -> R a c.

Lemma steady_ret {A} (a : A) : steady R (ret a).
Proof. intros w. apply R_refl. Qed.

Lemma steady_pure {A} (m : M A) :
  (forall w, exists a w', m w = Ret a w' /\ R w w') -> steady R m.
Proof. intros H w. destruct (H w) as (a & w' & -> & HR). exact HR. Qed.

Lemma steady_spin : steady R spin.
Proof. intros w. cbn. split; [discriminate | apply R_refl]. Qed.

Lemma steady_bind {A B} (m : M A) (k : A -> M B) :
  steady R m -> (forall a, steady R (k a)) -> steady R (bind m k).
Proof.
  intros Hm Hk w. unfold bind.
  specialize (Hm w). destruct (m w) as [a w1|r w1]; [|exact Hm].
  specialize (Hk a w1). destruct (k a w1) as [b w2|r w2].
  - eapply R_trans; eassumption.
  - destruct Hk as [Hr HR]. split; [exact Hr|]. eapply R_trans; eassumption.
Qed.

Lemma steady_for_each {A} (body : A -> M unit) (l : list A) :
  (forall x, steady R (body x)) -> steady R (for_each body l).
Proof.
  intros Hb. induction l as [|x l IH]; cbn [for_each].
  - apply steady_ret.
  - apply steady_bind; [apply Hb | intros _; exact IH].
Qed.

Lemma steady_while fuel (cond : M bool) (body : M unit) :
  steady R cond -> steady R body -> steady R (while fuel cond body).
Proof.
  intros Hc Hb. induction fuel as [|fuel IH]; cbn [while].
  - intros w. split; [discriminate | apply R_refl].
  - apply steady_bind; [exact Hc|]. intros [|].
    + apply steady_bind; [exact Hb | intros _; exact IH].
    + apply steady_ret.
Qed.

(** A steady prefix cannot be where a run reached the terminal idle. *)
Lemma steady_then_idle {A B} (m : M A) (k : A -> M B) w w' :
  steady R m -> bind m k w = Stop Idle w' ->
  exists a w1, m w = Ret a w1 /\ R w w1 /\ k a w1 = Stop Idle w'.
Proof.
  intros Hm. unfold bind. specialize (Hm w).
  destruct (m w) as [a w1|r w1].
  - intros Hk. now exists a, w1.
  - intros [= -> ->]. now destruct Hm.
Qed.
End Steady.

(** ** Effects of straight-line code *)

Lemma effect_refl w : effect w w [] 0.
Proof. split; trivial; [now rewrite app_nil_r | lia]. Qed.

Lemma effect_trans w w1 w2 e1 d1 e2 d2 :
  effect w w1 e1 d1 -> effect w1 w2 e2 d2 -> effect w w2 (e1 ++ e2) (d1 + d2).
Proof.
  intros [] []. split; try congruence.
  - rewrite app_assoc. congruence.
  - lia.
Qed.

Lemma runs_bind (m : M unit) (k : M unit) w e1 d1 e2 d2 :
  runs m w e1 d1 ->
  (forall w1, effect w w1 e1 d1 -> runs k w1 e2 d2) ->
  runs (m ;; k) w (e1 ++ e2) (d1 + d2).
Proof.
  intros (w1 & Hm & H1) Hk.
  destruct (Hk w1 H1) as (w2 & Hk2 & H2).
  exists w2. split.
  - now rewrite (bind_Ret _ _ _ _ _ Hm).
  - eapply effect_trans; eassumption.
Qed.

Lemma runs_emit e w : runs (act (emit e)) w [e] 0.
Proof. eexists. split; [reflexivity|]. split; cbn; trivial; lia. Qed.

Lemma runs_delay ms w : runs (delay ms) w [Delay ms] ms.
Proof. eexists. split; [reflexivity|]. split; cbn; trivial. Qed.

Lemma runs_digitalWrite pin b w : runs (digitalWrite pin b) w [DigitalWrite pin b] 0.
Proof. apply runs_emit. Qed.

Lemma runs_analogWrite pin d w : runs (analogWrite pin d) w [AnalogWrite pin d] 0.
Proof. apply runs_emit. Qed.

Lemma runs_client_print s w : runs (client_print s) w [Send s] 0.
Proof. apply runs_emit. Qed.

Lemma runs_printInLog env m w : runs (printInLog env m) w [Log m] 0.
Proof.
  unfold runs, printInLog. cbn.
  destruct (sd_ready w); [destruct (sd_open env (n_open w))|];
    (eexists; split; [reflexivity|]; split; cbn; trivial; lia).
Qed.

Lemma runs_ret w : runs (ret tt) w [] 0.
Proof. exists w. split; [reflexivity | apply effect_refl]. Qed.

Lemma runs_eq m w e d e' d' : runs m w e d -> e = e' -> d = d' -> runs m w e' d'.
Proof. now intros H <- <-. Qed.

Lemma runs_BurnWire env w : runs (BurnWire env) w burn_events (oneMinute * 10).
Proof.
  unfold BurnWire.
  eapply runs_eq.
  - apply runs_bind; [apply runs_printInLog | intros ? _].
    apply runs_bind; [apply runs_digitalWrite | intros ? _].
    apply runs_bind; [apply runs_delay | intros ? _].
    apply runs_bind; [apply runs_digitalWrite | intros ? _].
    apply runs_printInLog.
  - reflexivity.
  - reflexivity.
Qed.

Lemma runs_ramp (ms : Z) (levels : list Z) w :
  runs (for_each (fun i => analogWrite lightsPin i ;; delay ms) levels) w
       (ramp_events ms levels) (ms * Z.of_nat (length levels)).
Proof.
  revert w. induction levels as [|i levels IH]; intros w; cbn [for_each].
  - eapply runs_eq; [apply runs_ret | reflexivity | cbn; lia].
  - eapply runs_eq.
    + apply runs_bind.
      * apply runs_bind; [apply runs_analogWrite | intros ? _; apply runs_delay].
      * intros w1 _. apply IH.
    + reflexivity.
    + cbn [length]. lia.
Qed.

Lemma runs_seq {B} (m : M unit) (k : M B) w e d :
  runs m w e d -> exists w1, effect w w1 e d /\ bind m (fun _ => k) w = k w1.
Proof.
  intros (w1 & Hm & He). exists w1. split; [exact He|].
  now rewrite (bind_Ret _ _ _ _ _ Hm).
Qed.

Lemma new_events_app w w' evs : trace w' = trace w ++ evs -> new_events w w' = evs.
Proof. unfold new_events. intros ->. now rewrite drop_app_length. Qed.

Lemma count_app p tr1 tr2 : count p (tr1 ++ tr2) = (count p tr1 + count p tr2)%nat.
Proof.
  induction tr1 as [|e tr1 IH]; cbn; [reflexivity|].
  destruct (p e); cbn; now rewrite IH.
Qed.

(** ** The environmental monitor *)

Lemma over80_nan t : isnan t = true -> over80 t = false.
Proof. destruct t; try discriminate. reflexivity. Qed.

Lemma readDHT22Values_run env w :
  exists w',
    readDHT22Values env w = Ret tt w'
    /\ trace w' = trace w ++ sample_events (dht env (n_dht w))
    /\ clock w' = clock w + overhead (dht env (n_dht w))
    /\ time_now w' = time_now w
    /\ n_dht w' = S (n_dht w)
    /\ n_connect w' = n_connect w
    /\ n_poll w' = n_poll w.
Proof.
  set (s := dht env (n_dht w)).
  set (w0 := emit (Sensor (hum s) (temp s)) (tick (took s) (next_dht w))).
  assert (Hrest : runs ((if over80 (temp s) then BurnWire env else ret tt) ;;
                        if isnan (hum s) || isnan (temp s)
                        then printInLog env (Text "Failed to read from DHT sensor")
                        else printInLog env (Reading (hum s) (temp s)))
                       w0
                       ((if over80 (temp s) then burn_events else []) ++ [Log (sample_log s)])
                       ((if over80 (temp s) then oneMinute * 10 else 0) + 0)).
  { apply runs_bind.
    - destruct (over80 (temp s)); [apply runs_BurnWire | apply runs_ret].
    - intros w1 _. unfold sample_log.
      destruct (isnan (hum s) || isnan (temp s)); apply runs_printInLog. }
  destruct Hrest as (w' & Hrun & [Htr Hclk Htn Hpoll Hdht Hconn]).
  exists w'. split; [exact Hrun|].
  unfold sample_events, overhead. fold s.
  rewrite Htr, Hclk, Htn, Hpoll, Hdht, Hconn. subst w0; cbn.
  rewrite <- app_assoc. repeat split; trivial; lia.
Qed.

Lemma releases_burn : releases burn_events = 1%nat.
Proof. reflexivity. Qed.

Lemma releases_sample s :
  releases (sample_events s) = (if over80 (temp s) then 1 else 0)%nat.
Proof.
  unfold sample_events, releases. cbn [count is_release].
  rewrite count_app. destruct (over80 (temp s)); reflexivity.
Qed.

Lemma faults_sample s :
  faults (sample_events s) = (if over80 (temp s) then 1 else 0)%nat.
Proof.
  unfold sample_events, faults. cbn [count is_fault].
  destruct (over80 (temp s)); reflexivity.
Qed.

(** C10. In every sample the release decision is a function of the
    temperature alone: a NaN temperature never fires the release, and a
    temperature above 80 fires it also when the humidity is NaN, the
    failed-read message coming after the release. *)
Theorem fault_decision_by_temperature (env : Env) (w : World) :
  let s := dht env (n_dht w) in
  let added := new_events w (final (readDHT22Values env w)) in
  releases added = (if over80 (temp s) then 1 else 0)%nat
  /\ (isnan (temp s) = true -> releases added = 0%nat)
  /\ (over80 (temp s) = true -> isnan (hum s) = true ->
      added = Sensor (hum s) (temp s) :: burn_events ++
              [Log (Text "Failed to read from DHT sensor")]).
Proof.
  intros s added.
  destruct (readDHT22Values_run env w) as (w' & Hrun & Htr & _).
  assert (Hadded : added = sample_events s).
  { subst added. rewrite Hrun. cbn [final]. now apply new_events_app. }
  rewrite Hadded, releases_sample.
  split; [reflexivity|]. split.
  - intros Hnan. now rewrite (over80_nan _ Hnan).
  - intros Hover Hnan. unfold sample_events, sample_log.
    now rewrite Hover, Hnan.
Qed.

(** A reading of exactly 80.0 is greater than or equal to the threshold and
    fires no release. *)
Lemma release_at_threshold_counterexample :
  SFleb f80 (temp (dht env_at80 0)) = true
  /\ releases (new_events (boot None) (final (readDHT22Values env_at80 (boot None)))) = 0%nat.
Proof. split; reflexivity. Qed.

(** ** The remote device controller *)

Lemma issueCommand_run env path failed done w :
  exists w',
    issueCommand env path failed done w = Ret tt w'
    /\ trace w' = trace w ++ command_events path failed done (connect env (n_connect w))
    /\ clock w' = clock w
    /\ time_now w' = time_now w
    /\ n_dht w' = n_dht w
    /\ n_connect w' = S (n_connect w)
    /\ n_poll w' = n_poll w.
Proof.
  set (ok := connect env (n_connect w)).
  set (w0 := emit (Connect "10.5.5.9" httpPort ok) (next_connect w)).
  assert (Hrest : runs (if ok then client_print (request path) ;; printInLog env (Text done)
                        else printInLog env (Text failed)) w0
                       (if ok then [Send (request path); Log (Text done)]
                        else [Log (Text failed)]) 0).
  { destruct ok.
    - eapply runs_eq.
      + apply runs_bind; [apply runs_client_print | intros ? _; apply runs_printInLog].
      + reflexivity.
      + reflexivity.
    - apply runs_printInLog. }
  destruct Hrest as (w' & Hrun & [Htr Hclk Htn Hpoll Hdht Hconn]).
  exists w'. split; [exact Hrun|].
  unfold command_events. fold ok.
  rewrite Htr, Hclk, Htn, Hpoll, Hdht, Hconn. subst w0; cbn.
  rewrite <- app_assoc. repeat split; trivial; lia.
Qed.

Lemma StartRecording_issueCommand env w :
  StartRecording env w
  = issueCommand env StartUrl "Start recording failed" "GoPro started recording" w.
Proof.
  unfold StartRecording, issueCommand, bind, client_connect.
  now destruct (connect env (n_connect w)).
Qed.

Lemma StopRecording_issueCommand env w :
  StopRecording env w
  = issueCommand env StopUrl "Stop recording failed" "GoPro stopped recording" w.
Proof.
  unfold StopRecording, issueCommand, bind, client_connect.
  now destruct (connect env (n_connect w)).
Qed.

(** ** The illumination controller *)

Lemma duties_ramp ms levels : duties (ramp_events ms levels) = levels.
Proof.
  unfold ramp_events.
  induction levels as [|i levels IH]; [reflexivity|].
  cbn [flat_map app duties]. now rewrite Z.eqb_refl, IH.
Qed.

Lemma runs_rampUp w : runs rampUp w (ramp_events 5 (upto 0 255)) 1275.
Proof. eapply runs_eq; [apply runs_ramp | reflexivity | reflexivity]. Qed.

Lemma runs_rampDown w : runs rampDown w (ramp_events 50 (downto 255 0)) 12750.
Proof. eapply runs_eq; [apply runs_ramp | reflexivity | reflexivity]. Qed.

(** ** After the recording: recovery *)

Lemma recovery_run env w :
  exists w',
    recovery env w = Stop Idle w'
    /\ trace w' = trace w ++ recovery_events (connect env (n_connect w))
    /\ clock w' = clock w + 12750 + oneMinute * 10.
Proof.
  unfold recovery.
  destruct (issueCommand_run env StopUrl "Stop recording failed"
              "GoPro stopped recording" w) as (w1 & H1 & T1 & C1 & _).
  rewrite <- StopRecording_issueCommand in H1.
  rewrite (bind_Ret _ _ _ _ _ H1).
  destruct (runs_seq rampDown
              (digitalWrite lightsPin false ;;
               printInLog env (Text "Turning lights off") ;;
               BurnWire env ;; DisconnectFromGoPro ;;
               digitalWrite LEDmagswitch false ;; idle)
              w1 _ _ (runs_rampDown w1)) as (w2 & [T2 C2 _ _ _ _] & ->).
  destruct (runs_seq (digitalWrite lightsPin false)
              (printInLog env (Text "Turning lights off") ;;
               BurnWire env ;; DisconnectFromGoPro ;;
               digitalWrite LEDmagswitch false ;; idle)
              w2 _ _ (runs_digitalWrite _ _ w2)) as (w3 & [T3 C3 _ _ _ _] & ->).
  destruct (runs_seq (printInLog env (Text "Turning lights off"))
              (BurnWire env ;; DisconnectFromGoPro ;;
               digitalWrite LEDmagswitch false ;; idle)
              w3 _ _ (runs_printInLog env _ w3)) as (w4 & [T4 C4 _ _ _ _] & ->).
  destruct (runs_seq (BurnWire env)
              (DisconnectFromGoPro ;; digitalWrite LEDmagswitch false ;; idle)
              w4 _ _ (runs_BurnWire env w4)) as (w5 & [T5 C5 _ _ _ _] & ->).
  eexists. split; [reflexivity|]. cbn.
  rewrite T5, T4, T3, T2, T1, C5, C4, C3, C2, C1.
  unfold recovery_events. rewrite <- !app_assoc. cbn [app].
  split; [reflexivity | lia].
Qed.

Lemma recording_prefix_run cfg env fuel w :
  exists w1,
    recording cfg env fuel w
    = (mark_time ;; sample_until env fuel (recordingTime cfg)) w1
    /\ trace w1 = trace w ++ [Log (Text "Turning lights on")]
                  ++ ramp_events 5 (upto 0 255)
                  ++ command_events StartUrl "Start recording failed"
                       "GoPro started recording" (connect env (n_connect w))
    /\ clock w1 = clock w + 1275
    /\ n_dht w1 = n_dht w.
Proof.
  unfold recording.
  destruct (runs_seq (printInLog env (Text "Turning lights on"))
              (rampUp ;; StartRecording env ;; mark_time ;;
               sample_until env fuel (recordingTime cfg))
              w _ _ (runs_printInLog env _ w)) as (w1 & [T1 C1 _ _ D1 N1] & ->).
  destruct (runs_seq rampUp
              (StartRecording env ;; mark_time ;;
               sample_until env fuel (recordingTime cfg))
              w1 _ _ (runs_rampUp w1)) as (w2 & [T2 C2 _ _ D2 N2] & ->).
  destruct (issueCommand_run env StartUrl "Start recording failed"
              "GoPro started recording" w2) as (w3 & H3 & T3 & C3 & _ & D3 & _).
  rewrite <- StartRecording_issueCommand in H3.
  rewrite (bind_Ret _ _ _ _ _ H3).
  exists w3. split; [reflexivity|].
  rewrite T3, T2, T1, C3, C2, C1, D3, D2, D1, N2, N1.
  rewrite <- !app_assoc. repeat split; trivial; lia.
Qed.

(** C7. Start-recording and stop-recording are the same command but for the
    path (and the wording of their two log messages): one connection attempt
    to 10.5.5.9:80; when it fails, the failure is logged, nothing is sent,
    no second attempt is made and the function returns; the sequencer then
    goes on, to the recording wait loop after a start, and through lights
    down, release and terminal idle after a stop. *)
Theorem command_failure_is_skipped (cfg : Config) (env : Env) (fuel : nat) (w : World) :
  let ok := connect env (n_connect w) in
  StartRecording env w
    = issueCommand env StartUrl "Start recording failed" "GoPro started recording" w
  /\ StopRecording env w
    = issueCommand env StopUrl "Stop recording failed" "GoPro stopped recording" w
  /\ (forall path failed done,
        exists w',
          issueCommand env path failed done w = Ret tt w'
          /\ new_events w w' = command_events path failed done ok
          /\ keep is_net (new_events w w')
             = Connect "10.5.5.9" httpPort ok :: (if ok then [Send (request path)] else [])
          /\ n_connect w' = S (n_connect w))
  /\ (exists w1,
        recording cfg env fuel w
        = (mark_time ;; sample_until env fuel (recordingTime cfg)) w1
        /\ count is_connect (new_events w w1) = 1%nat)
  /\ (exists w', recovery env w = Stop Idle w'
        /\ new_events w w' = recovery_events ok
        /\ count is_connect (new_events w w') = 1%nat
        /\ releases (new_events w w') = 1%nat).
Proof.
  intros ok.
  split; [apply StartRecording_issueCommand|].
  split; [apply StopRecording_issueCommand|].
  split; [|split].
  - intros path failed done.
    destruct (issueCommand_run env path failed done w)
      as (w' & Hrun & Htr & _ & _ & _ & Hconn & _).
    exists w'. rewrite (new_events_app _ _ _ Htr). fold ok.
    repeat split; trivial. now destruct ok.
  - destruct (recording_prefix_run cfg env fuel w) as (w1 & Hrun & Htr & _).
    exists w1. split; [exact Hrun|].
    rewrite (new_events_app _ _ _ Htr). fold ok. now destruct ok.
  - destruct (recovery_run env w) as (w' & Hrun & Htr & _).
    exists w'. split; [exact Hrun|].
    rewrite (new_events_app _ _ _ Htr). fold ok. now destruct ok.
Qed.

(** C5, amended. Once the recording wait loop is over the sequencer first
    commands the remote device to stop recording, then ramps the lights
    down from 255 to 1 and switches them off, then fires the release, then
    drops the link and stays in the terminal idle. *)
Theorem recovery_order (env : Env) (w : World) :
  exists w',
    recovery env w = Stop Idle w'
    /\ new_events w w'
       = command_events StopUrl "Stop recording failed" "GoPro stopped recording"
           (connect env (n_connect w))
         ++ ramp_events 50 (downto 255 0)
         ++ [DigitalWrite lightsPin false; Log (Text "Turning lights off")]
         ++ burn_events
         ++ [WifiDisconnect; DigitalWrite LEDwifi false; DigitalWrite LEDmagswitch false]
    /\ precedes is_connect is_ramp_write (new_events w w') = true
    /\ precedes is_ramp_write is_release (new_events w w') = true.
Proof.
  destruct (recovery_run env w) as (w' & Hrun & Htr & _).
  exists w'. split; [exact Hrun|].
  rewrite (new_events_app _ _ _ Htr).
  split; [reflexivity|].
  now destruct (connect env (n_connect w)).
Qed.

(** The claimed order, lights down before the stop command, fails on a
    mission where everything works: the stop command comes first. *)
Lemma ramp_before_stop_counterexample :
  precedes is_ramp_write is_connect
    (new_events (boot None) (final (recovery env_calm (boot None)))) = false.
Proof. vm_compute. reflexivity. Qed.

(** C8. The duties written by the ramps.  rampUp writes 0, 1, ..., 254 in
    unit steps and stops there: 255 is never written on the way up.
    rampDown writes 255, 254, ..., 1; the 0 comes from the digitalWrite
    that follows it. *)
Theorem rampUp_stops_at_254 (w : World) :
  (exists w', rampUp w = Ret tt w' /\ duties (new_events w w') = seqZ 0 255)
  /\ last (seqZ 0 255) = Some 254
  /\ (forall i : nat, (i < 255)%nat -> seqZ 0 255 !! i = Some (Z.of_nat i))
  /\ (exists w', rampDown w = Ret tt w'
        /\ duties (new_events w w') = reverse (seqZ 1 255))
  /\ (forall i : nat, (i < 255)%nat ->
        reverse (seqZ 1 255) !! i = Some (255 - Z.of_nat i)).
Proof.
  split; [|split; [|split; [|split]]].
  - destruct (runs_rampUp w) as (w' & Hrun & [Htr _ _ _ _ _]).
    exists w'. split; [exact Hrun|].
    rewrite (new_events_app _ _ _ Htr). apply duties_ramp.
  - vm_compute. reflexivity.
  - intros i Hi. rewrite lookup_seqZ. split; lia.
  - destruct (runs_rampDown w) as (w' & Hrun & [Htr _ _ _ _ _]).
    exists w'. split; [exact Hrun|].
    rewrite (new_events_app _ _ _ Htr). apply duties_ramp.
  - intros i Hi. rewrite reverse_lookup by (rewrite length_seqZ; lia).
    rewrite length_seqZ, lookup_seqZ. split; [f_equal|]; lia.
Qed.

(** ** The cadence loop *)

Lemma sample_until_step env f minutes w :
  sample_until env (S f) minutes w
  = if ulong (clock w) <? deadline minutes w
    then bind (readDHT22Values env ;; delay oneMinute)
              (fun _ => sample_until env f minutes) w
    else Ret tt w.
Proof.
  unfold sample_until. cbn [while]. unfold bind at 1 2, millis.
  now destruct (ulong (clock w) <? deadline minutes w).
Qed.

Lemma iteration_run env w :
  exists w1,
    (readDHT22Values env ;; delay oneMinute) w = Ret tt w1
    /\ trace w1 = trace w ++ sample_events (dht env (n_dht w)) ++ [Delay oneMinute]
    /\ clock w1 = clock w + overhead (dht env (n_dht w)) + oneMinute
    /\ time_now w1 = time_now w
    /\ n_dht w1 = S (n_dht w).
Proof.
  destruct (readDHT22Values_run env w) as (w0 & Hrun & Htr & Hclk & Htn & Hdht & _).
  eexists. split; [rewrite (bind_Ret _ _ _ _ _ Hrun); reflexivity|].
  cbn. rewrite Htr, Hclk, Htn, Hdht, <- app_assoc. repeat split.
Qed.

Lemma ulong_small z : 0 <= z < 2 ^ 32 -> ulong z = z.
Proof. intros H. unfold ulong. now apply Z.mod_small. Qed.

Section WaitLoop.
Variable env : Env.
Variable omax : Z.
Variable minutes : Z.
Variable tn : Z.
Let dl := tn + minutes * oneMinute.
Hypothesis Hover : forall k, 0 <= overhead (dht env k) <= omax.
Hypothesis Hdl : 0 <= dl.
Hypothesis Hwrap : dl + oneMinute + omax <= 2 ^ 32.

(** With [r] intervals left to the deadline and fuel for them, the loop
    returns at the first iteration boundary at or after the deadline. *)
Lemma wait_bounded : forall (f r : nat) (w : World),
  time_now w = tn ->
  0 <= clock w < dl + oneMinute + omax ->
  dl - clock w <= Z.of_nat r * oneMinute ->
  (r <= f)%nat ->
  exists w' (n : nat),
    sample_until env (S f) minutes w = Ret tt w'
    /\ (n <= r)%nat
    /\ n_dht w' = (n_dht w + n)%nat
    /\ time_now w' = tn
    /\ dl <= clock w' < dl + oneMinute + omax
    /\ clock w <= clock w'
    /\ (omax = 0 -> dl - clock w = Z.of_nat r * oneMinute ->
        n = r /\ clock w' = dl).
Proof.
  assert (HI : oneMinute = 60000) by reflexivity.
  assert (Homax : 0 <= omax) by (specialize (Hover 0%nat); lia).
  induction f as [|f IH]; intros r w Htn Hclk Hleft Hfuel.
  - assert (r = 0%nat) by lia. subst r.
    rewrite sample_until_step.
    unfold deadline. rewrite Htn. fold dl.
    rewrite !ulong_small by lia.
    destruct (Z.ltb_spec (clock w) dl) as [Hlt|Hge]; [lia|].
    exists w, 0%nat. repeat split; lia.
  - rewrite sample_until_step.
    unfold deadline. rewrite Htn. fold dl.
    rewrite !ulong_small by lia.
    destruct (Z.ltb_spec (clock w) dl) as [Hlt|Hge].
    + destruct (iteration_run env w) as (w1 & Hrun & _ & Hclk1 & Htn1 & Hdht1).
      rewrite (bind_Ret _ _ _ _ _ Hrun).
      specialize (Hover (n_dht w)).
      destruct r as [|r]; [lia|].
      destruct (IH r w1) as (w' & n & Hloop & Hn & Hdht & Htn' & Hexit & Hmono & Hexact);
        try lia.
      exists w', (S n). split; [exact Hloop|].
      repeat split; lia.
    + exists w, 0%nat. repeat split; lia.
Qed.
End WaitLoop.

(** C4, amended. A wait phase of [minutes] minutes, marked at its start
    ([time_now w = clock w]), during which millis() cannot roll over: with
    D = minutes * oneMinute, the start plus D plus one sampling interval
    plus [omax] is at most 2^32.  It returns after at most [minutes]
    samples, and the time it took lies in [D, D + oneMinute + omax), where
    [omax] bounds what an iteration adds to the sampling interval: the time
    of the sensor read and, on a thermal fault, the ten-minute hold of the
    release.  With no fault and instantaneous reads ([omax = 0]) it takes
    exactly [minutes] samples and exactly D. *)
Theorem wait_phase_overshoot (env : Env) (fuel : nat) (minutes omax : Z) (w : World)
    (Hover : forall k, 0 <= overhead (dht env k) <= omax)
    (Hmin : 0 <= minutes < Z.of_nat fuel)
    (Hclk : 0 <= clock w)
    (Hmark : time_now w = clock w)
    (Hwrap : clock w + minutes * oneMinute + oneMinute + omax <= 2 ^ 32) :
  exists w' (n : nat),
    sample_until env fuel minutes w = Ret tt w'
    /\ n_dht w' = (n_dht w + n)%nat
    /\ Z.of_nat n <= minutes
    /\ minutes * oneMinute <= clock w' - clock w < minutes * oneMinute + oneMinute + omax
    /\ (omax = 0 -> Z.of_nat n = minutes /\ clock w' - clock w = minutes * oneMinute).
Proof.
  assert (HI : oneMinute = 60000) by reflexivity.
  assert (Homax : 0 <= omax) by (specialize (Hover 0%nat); lia).
  destruct fuel as [|f]; [lia|].
  destruct (wait_bounded env omax minutes (clock w) Hover ltac:(lia) ltac:(lia)
              f (Z.to_nat minutes) w Hmark ltac:(lia) ltac:(lia) ltac:(lia))
    as (w' & n & Hrun & Hn & Hdht & _ & Hexit & _ & Hexact).
  exists w', n. split; [exact Hrun|]. repeat split; lia.
Qed.

Lemma calm_has_no_overhead : forall k, 0 <= overhead (dht env_calm k) <= 0.
Proof. intros k. change (0 <= 0 <= 0). lia. Qed.

Lemma wait_phase_overshoot_witness :
  exists w' (n : nat),
    sample_until env_calm 5 2 (boot None) = Ret tt w'
    /\ n_dht w' = (n_dht (boot None) + n)%nat
    /\ Z.of_nat n <= 2
    /\ 2 * oneMinute <= clock w' - clock (boot None) < 2 * oneMinute + oneMinute + 0
    /\ (0 = 0 -> Z.of_nat n = 2 /\ clock w' - clock (boot None) = 2 * oneMinute).
Proof.
  apply (wait_phase_overshoot env_calm 5 2 0 (boot None)).
  - exact calm_has_no_overhead.
  - lia.
  - simpl. lia.
  - reflexivity.
  - vm_compute. discriminate.
Defined.

(** A one-minute wait whose first sample reads 85 degrees lasts eleven
    minutes, nine more than the claimed bound of duration plus one interval. *)
Lemma wait_overshoot_counterexample :
  exists w',
    sample_until env_hot 5 1 (next_dht (boot None)) = Ret tt w'
    /\ clock w' - clock (next_dht (boot None)) = 660000
    /\ ~ (1 * oneMinute <= clock w' - clock (next_dht (boot None))
          < 1 * oneMinute + oneMinute).
Proof.
  eexists. split; [vm_compute; reflexivity|].
  split; [reflexivity|]. vm_compute. intros [_ H]. discriminate H.
Qed.

(** The bound needs millis() not to roll over before the loop has exited,
    not only a deadline that does not wrap.  A one-minute wait marked 60010
    ms before the rollover, with reads of 250 ms, has its deadline 10 ms
    before the rollover; the first iteration ends after it, millis() has
    wrapped, and the loop goes on: it is still running fifty samples
    later. *)
Lemma wait_outlives_rollover :
  let env := env_with (fun _ => mkSample f20 f20 250) (fun _ => true) in
  let w := set_time_now (2 ^ 32 - 60010) (tick (2 ^ 32 - 60010) (boot None)) in
  deadline 1 w = 2 ^ 32 - 10
  /\ exists w',
       sample_until env 50 1 w = Stop OutOfFuel w'
       /\ n_dht w' = 50%nat
       /\ clock w' - clock w = 50 * 60250.
Proof.
  split; [reflexivity|].
  eexists. split; [vm_compute; reflexivity|]. split; reflexivity.
Qed.

(** ** Shape of the trace before the recovery *)

Lemma blocks_app tr1 tr2 : blocks tr1 -> blocks tr2 -> blocks (tr1 ++ tr2).
Proof.
  induction 1 as [|e tr Hq _ IH|s tr _ IH]; intros H2; cbn.
  - exact H2.
  - apply blocks_quiet; auto.
  - rewrite <- app_assoc. apply blocks_sample; auto.
Qed.

Lemma grew_refl w : grew_blocks w w.
Proof. exists []. split; [now rewrite app_nil_r | constructor]. Qed.

Lemma grew_trans a b c : grew_blocks a b -> grew_blocks b c -> grew_blocks a c.
Proof.
  intros (e1 & H1 & B1) (e2 & H2 & B2). exists (e1 ++ e2).
  split; [rewrite H2, H1; now rewrite app_assoc | now apply blocks_app].
Qed.

Lemma steady_runs_blocks (m : M unit) :
  (forall w, exists evs d, runs m w evs d /\ blocks evs) -> steady grew_blocks m.
Proof.
  intros H. apply steady_pure. intros w.
  destruct (H w) as (evs & d & (w' & Hrun & [Htr _ _ _ _ _]) & Hb).
  exists tt, w'. split; [exact Hrun|]. now exists evs.
Qed.

Lemma steady_blocks_printInLog env m : steady grew_blocks (printInLog env m).
Proof.
  apply steady_runs_blocks. intros w. exists [Log m], 0.
  split; [apply runs_printInLog | now repeat constructor].
Qed.

Lemma steady_blocks_readDHT22Values env : steady grew_blocks (readDHT22Values env).
Proof.
  apply steady_pure. intros w.
  destruct (readDHT22Values_run env w) as (w' & Hrun & Htr & _).
  exists tt, w'. split; [exact Hrun|].
  exists (sample_events (dht env (n_dht w))). split; [exact Htr|].
  rewrite <- (app_nil_r (sample_events _)). apply blocks_sample. constructor.
Qed.

Lemma steady_blocks_initializeLog : steady grew_blocks initializeLog.
Proof.
  intros w. unfold initializeLog.
  destruct (logfile w); exists []; (split; [symmetry; apply app_nil_r | constructor]).
Qed.

Lemma steady_blocks_emit e : quiet e = true -> steady grew_blocks (act (emit e)).
Proof.
  intros Hq. apply steady_runs_blocks. intros w. exists [e], 0.
  split; [apply runs_emit | now repeat constructor].
Qed.

Lemma steady_blocks_SendMagicPacket env : steady grew_blocks (SendMagicPacket env).
Proof. unfold SendMagicPacket. now apply steady_blocks_emit. Qed.

Ltac blocks_leaf :=
  apply steady_pure; intros ?w; eexists _, _;
  (split; [reflexivity|]);
  cbn [trace emit tick set_time_now set_switchState set_status set_rtc_zero
       set_sd next_open next_poll next_dht next_connect];
  first [ exists []; split; [symmetry; apply app_nil_r | constructor]
        | eexists [_]; split;
          [reflexivity | apply blocks_quiet; [reflexivity | constructor]] ].

Ltac blocks_walk :=
  repeat first
    [ assumption
    | apply (steady_ret grew_blocks grew_refl)
    | apply (steady_spin grew_blocks grew_refl)
    | apply steady_blocks_printInLog
    | apply steady_blocks_readDHT22Values
    | apply steady_blocks_initializeLog
    | apply steady_blocks_SendMagicPacket
    | apply (steady_bind grew_blocks grew_trans); [|intros ?]
    | apply (steady_for_each grew_blocks grew_refl grew_trans); intros ?
    | apply (steady_while grew_blocks grew_refl grew_trans)
    | match goal with
      | |- steady _ (if ?b then _ else _) => destruct b
      | |- steady _ (fun w => printInLog ?env (@?m w) w) =>
          let w := fresh "w" in
          intros w; apply (steady_blocks_printInLog env (m w) w)
      end
    | blocks_leaf ].

Lemma steady_blocks_setup env fuel : steady grew_blocks (setup env fuel).
Proof. unfold setup, ConnectToGoPro. blocks_walk. Qed.

Lemma steady_blocks_sample_until env fuel minutes :
  steady grew_blocks (sample_until env fuel minutes).
Proof. unfold sample_until. blocks_walk. Qed.

Lemma steady_blocks_descent cfg env fuel : steady grew_blocks (descent cfg env fuel).
Proof.
  unfold descent, MagneticSwitch, WakeupGoPro, mark_time.
  pose proof (steady_blocks_sample_until env fuel (dropTime cfg)) as Hloop.
  blocks_walk.
Qed.

Lemma blocks_ramp ms levels : blocks (ramp_events ms levels).
Proof.
  unfold ramp_events.
  induction levels as [|i levels IH]; cbn [flat_map app]; now repeat constructor.
Qed.

Lemma steady_blocks_rampUp : steady grew_blocks rampUp.
Proof.
  apply steady_runs_blocks. intros w. eexists _, _.
  split; [apply runs_rampUp | apply blocks_ramp].
Qed.

Lemma steady_blocks_recording cfg env fuel : steady grew_blocks (recording cfg env fuel).
Proof.
  unfold recording, StartRecording, mark_time.
  pose proof (steady_blocks_sample_until env fuel (recordingTime cfg)) as Hloop.
  pose proof steady_blocks_rampUp as Hramp.
  blocks_walk.
Qed.

(** Every run of the sketch ends in one of two ways: it stops before the
    recovery, its trace made of quiet events and whole samples, or it went
    through the recovery and sits in the terminal idle. *)
Lemma program_shape cfg env fuel w :
  match program cfg env fuel w with
  | Ret _ _ => False
  | Stop Idle w' =>
      exists w3, grew_blocks w w3
        /\ trace w' = trace w3 ++ recovery_events (connect env (n_connect w3))
  | Stop _ w' => grew_blocks w w'
  end.
Proof.
  unfold program, loop_, bind.
  pose proof (steady_blocks_setup env fuel w) as H1.
  destruct (setup env fuel w) as [[] w1|r w1].
  2:{ destruct H1 as [Hr H1]. now destruct r. }
  pose proof (steady_blocks_descent cfg env fuel w1) as H2.
  destruct (descent cfg env fuel w1) as [[] w2|r w2].
  2:{ destruct H2 as [Hr H2]. pose proof (grew_trans _ _ _ H1 H2). now destruct r. }
  pose proof (steady_blocks_recording cfg env fuel w2) as H3.
  destruct (recording cfg env fuel w2) as [[] w3|r w3].
  2:{ destruct H3 as [Hr H3].
      pose proof (grew_trans _ _ _ H1 (grew_trans _ _ _ H2 H3)). now destruct r. }
  destruct (recovery_run env w3) as (w' & -> & Htr & _).
  exists w3. split; [|exact Htr].
  eapply grew_trans; [exact H1|]. eapply grew_trans; eassumption.
Qed.

Lemma blocks_balance tr : blocks tr -> releases tr = faults tr.
Proof.
  induction 1 as [|e tr Hq _ IH|s tr _ IH].
  - reflexivity.
  - unfold releases, faults in *. cbn [count]. rewrite IH.
    unfold quiet in Hq. apply andb_prop in Hq as [Hr Hs].
    apply negb_true_iff in Hr, Hs. rewrite Hr.
    destruct e; try discriminate; reflexivity.
  - unfold releases, faults in *. rewrite !count_app, IH.
    now rewrite (releases_sample s : count _ _ = _), (faults_sample s : count _ _ = _).
Qed.

Lemma releases_recovery ok : releases (recovery_events ok) = 1%nat.
Proof. now destruct ok. Qed.

Lemma faults_recovery ok : faults (recovery_events ok) = 0%nat.
Proof. now destruct ok. Qed.

(** C6, amended. In every run of the sketch the release fires once for each
    sample above 80 degrees, plus once more when the mission reaches its
    end: exactly once in a completed mission without thermal fault, and
    [1 + faults] times in general. *)
Theorem releases_per_mission (cfg : Config) (env : Env) (fuel : nat) (w : World) :
  let o := program cfg env fuel w in
  let added := new_events w (final o) in
  releases added
  = (faults added + match o with Stop Idle _ => 1 | _ => 0 end)%nat.
Proof.
  intros o added. subst added o.
  pose proof (program_shape cfg env fuel w) as H.
  destruct (program cfg env fuel w) as [a w'|r w']; [contradiction|].
  cbn [final].
  assert (Hpre : forall w1, grew_blocks w w1 ->
            releases (new_events w w1) = faults (new_events w w1)).
  { intros w1 (evs & Htr & Hb). rewrite (new_events_app _ _ _ Htr).
    now apply blocks_balance. }
  destruct r; try (rewrite (Hpre _ H); lia).
  destruct H as (w3 & (evs & Htr3 & Hb) & Htr).
  rewrite Htr3, <- app_assoc in Htr.
  rewrite (new_events_app _ _ _ Htr).
  unfold releases, faults. rewrite !count_app.
  fold (releases evs) (faults evs).
  rewrite (blocks_balance _ Hb).
  change (count is_release (recovery_events (connect env (n_connect w3))))
    with (releases (recovery_events (connect env (n_connect w3)))).
  change (count is_fault (recovery_events (connect env (n_connect w3))))
    with (faults (recovery_events (connect env (n_connect w3)))).
  rewrite releases_recovery, faults_recovery. lia.
Qed.

(** A completed mission with one sample at 85 degrees fires the release
    twice. *)
Lemma double_release_counterexample :
  exists w',
    program short_mission env_hot 5 (boot None) = Stop Idle w'
    /\ releases (trace w') = 2%nat
    /\ ~ (releases (trace w') <= 1)%nat.
Proof.
  eexists. split; [vm_compute; reflexivity|].
  split; [vm_compute; reflexivity|]. vm_compute. lia.
Qed.

(** ** The log file *)

Section Keeps.
Variable R : World -> World -> Prop.
Hypothesis R_refl : forall w, R w w.
Hypothesis R_trans : forall a b c, R a b -> R b c -> R a c.

Lemma keeps_stop {A} r : keeps R (Stop r : M A).
Proof. intros w. apply R_refl. Qed.

Lemma keeps_ret {A} (a : A) : keeps R (ret a).
Proof. intros w. apply R_refl. Qed.

Lemma keeps_bind {A B} (m : M A) (k : A -> M B) :
  keeps R m -> (forall a, keeps R (k a)) -> keeps R (bind m k).
Proof.
  intros Hm Hk w. unfold bind. specialize (Hm w).
  destruct (m w) as [a w1|r w1]; [|exact Hm].
  eapply R_trans; [exact Hm | apply Hk].
Qed.

Lemma keeps_for_each {A} (body : A -> M unit) (l : list A) :
  (forall x, keeps R (body x)) -> keeps R (for_each body l).
Proof.
  intros Hb. induction l as [|x l IH]; cbn [for_each].
  - apply keeps_ret.
  - apply keeps_bind; [apply Hb | intros _; exact IH].
Qed.

Lemma keeps_while fuel (cond : M bool) (body : M unit) :
  keeps R cond -> keeps R body -> keeps R (while fuel cond body).
Proof.
  intros Hc Hb. induction fuel as [|fuel IH]; cbn [while].
  - apply keeps_stop.
  - apply keeps_bind; [exact Hc|]. intros [|].
    + apply keeps_bind; [exact Hb | intros _; exact IH].
    + apply keeps_ret.
Qed.
End Keeps.

Lemma grow_grow f l1 l2 : grow (grow f l1) l2 = grow f (l1 ++ l2).
Proof.
  destruct l1 as [|x l1]; [reflexivity|].
  destruct l2 as [|y l2]; cbn; [now rewrite app_nil_r|].
  now rewrite <- app_assoc.
Qed.

Lemma appended_refl w : appended w w.
Proof. split; [reflexivity|]. exists []. cbn. now rewrite app_nil_r. Qed.

Lemma appended_trans a b c : appended a b -> appended b c -> appended a c.
Proof.
  intros (Hr1 & l1 & Ho1 & Hf1 & Hn1) (Hr2 & l2 & Ho2 & Hf2 & Hn2).
  split; [congruence|]. exists (l1 ++ l2). repeat split.
  - rewrite Ho2, Ho1, map_app. now rewrite app_assoc.
  - rewrite Hf2, Hf1. apply grow_grow.
  - intros H. rewrite (Hn1 H), (Hn2 ltac:(congruence)). reflexivity.
Qed.

Lemma keeps_appended_frame {A} (m : M A) :
  (forall w, exists a w', m w = Ret a w' /\ sd_ready w' = sd_ready w
      /\ sd_ops w' = sd_ops w /\ logfile w' = logfile w) ->
  keeps appended m.
Proof.
  intros H w. destruct (H w) as (a & w' & -> & Hr & Ho & Hf). cbn [final].
  split; [exact Hr|]. exists []. cbn. now rewrite app_nil_r.
Qed.

Lemma keeps_appended_printInLog env m : keeps appended (printInLog env m).
Proof.
  intros w. unfold printInLog. cbn [sd_ready emit n_open].
  destruct (sd_ready w) eqn:Hready; [destruct (sd_open env (n_open w))|]; cbn [final].
  - split; [reflexivity|].
    exists [stamp (emit (Log m) w) m]. cbn. repeat split. congruence.
  - split; [reflexivity|]. exists []. cbn. now rewrite app_nil_r.
  - split; [reflexivity|]. exists []. cbn. now rewrite app_nil_r.
Qed.

Ltac appended_leaf :=
  apply keeps_appended_frame; intros ?w; eexists _, _;
  (split; [reflexivity|]); now repeat split.

Ltac appended_walk :=
  repeat first
    [ assumption
    | apply (keeps_ret appended appended_refl)
    | apply (keeps_stop appended appended_refl)
    | apply keeps_appended_printInLog
    | apply (keeps_bind appended appended_trans); [|intros ?]
    | apply (keeps_for_each appended appended_refl appended_trans); intros ?
    | apply (keeps_while appended appended_refl appended_trans)
    | match goal with
      | |- keeps _ (if ?b then _ else _) => destruct b
      | |- keeps _ (fun w => printInLog ?env (@?m w) w) =>
          let w := fresh "w" in
          intros w; apply (keeps_appended_printInLog env (m w) w)
      end
    | appended_leaf ].

Lemma keeps_appended_ramp ms levels :
  keeps appended (for_each (fun i => analogWrite lightsPin i ;; delay ms) levels).
Proof. appended_walk. Qed.

Lemma keeps_appended_BurnWire env : keeps appended (BurnWire env).
Proof. unfold BurnWire. appended_walk. Qed.

Lemma keeps_appended_sample_until env fuel minutes :
  keeps appended (sample_until env fuel minutes).
Proof.
  pose proof (keeps_appended_BurnWire env).
  unfold sample_until, readDHT22Values. appended_walk.
Qed.

Lemma keeps_appended_ConnectToGoPro env fuel : keeps appended (ConnectToGoPro env fuel).
Proof. unfold ConnectToGoPro. appended_walk. Qed.

Lemma keeps_appended_loop cfg env fuel : keeps appended (loop_ cfg env fuel).
Proof.
  pose proof (keeps_appended_BurnWire env).
  pose proof (keeps_appended_sample_until env fuel (dropTime cfg)).
  pose proof (keeps_appended_sample_until env fuel (recordingTime cfg)).
  pose proof (keeps_appended_ramp 5 (upto 0 255)) as Hup.
  pose proof (keeps_appended_ramp 50 (downto 255 0)) as Hdown.
  fold rampUp in Hup. fold rampDown in Hdown.
  unfold loop_, descent, recording, recovery, MagneticSwitch, WakeupGoPro,
    SendMagicPacket, StartRecording, StopRecording, DisconnectFromGoPro,
    mark_time, idle.
  appended_walk.
Qed.

Lemma ensures_bind {A B} P Q Q' F (m : M A) (k : A -> M B) :
  ensures P m Q F -> (forall a, ensures Q (k a) Q' F) -> ensures P (bind m k) Q' F.
Proof.
  intros Hm Hk w Hw. unfold bind. specialize (Hm w Hw).
  destruct (m w) as [a w1|r w1]; [|exact Hm]. now apply Hk.
Qed.

Lemma ensures_untouched_emit previous e F :
  ensures (untouched previous) (act (emit e)) (untouched previous) F.
Proof. intros w Hw. exact Hw. Qed.

Lemma ensures_untouched_printInLog previous env m F :
  ensures (untouched previous) (printInLog env m) (untouched previous) F.
Proof.
  intros w (Hr & Ho & Hf). unfold printInLog. cbn [sd_ready emit].
  rewrite Hr. now repeat split.
Qed.

Lemma truncated_appended previous w w' :
  truncated_then_appended previous w -> appended w w' ->
  truncated_then_appended previous w'.
Proof.
  intros (l1 & Ho1 & Hf1) (_ & l2 & Ho2 & Hf2 & _).
  exists (l1 ++ l2). split.
  - rewrite Ho2, Ho1, map_app. now rewrite app_assoc.
  - rewrite Hf2, Hf1. apply grow_grow.
Qed.

(** What setup and the mission do to the card, from any world where the
    card is still untouched. *)
Lemma card_history cfg env fuel previous :
  ensures (untouched previous) (program cfg env fuel)
    (fun _ => False)
    (fun w' => if sd_card env then truncated_then_appended previous w'
               else sd_ops w' = [] /\ logfile w' = previous).
Proof.
  set (G := fun w' => if sd_card env then truncated_then_appended previous w'
                      else sd_ops w' = [] /\ logfile w' = previous).
  set (J := fun w' => sd_card env = true /\ truncated_then_appended previous w').
  assert (HJG : forall w, J w -> G w).
  { intros w [Hc HJ]. unfold G. now rewrite Hc. }
  assert (Hstep : forall A (m : M A), keeps appended m -> ensures J m J G).
  { intros A m Hm w [Hc HJ]. specialize (Hm w).
    destruct (m w) as [a w'|r w']; cbn [final] in Hm; [|apply HJG];
      (split; [exact Hc|]; eapply truncated_appended; eassumption). }
  unfold program.
  apply ensures_bind with (Q := J).
  - unfold setup, pinMode, digitalWrite.
    do 8 (eapply ensures_bind; [apply ensures_untouched_emit | intros _]).
    eapply ensures_bind; [apply ensures_untouched_printInLog | intros _].
    do 3 (apply ensures_bind with (Q := untouched previous);
          [intros w Hw; exact Hw | intros _]).
    apply ensures_bind with (Q := J).
    + intros w (Hr & Ho & Hf). unfold bind, SD_begin.
      unfold J, G. destruct (sd_card env) eqn:Hcard; cbn [negb].
      * unfold initializeLog. cbn [logfile set_sd sd_ops sd_ready emit].
        rewrite Hf, Ho.
        destruct previous; (split; [reflexivity|]); exists []; now split.
      * unfold printInLog. cbn [sd_ready set_sd emit spin]. now split.
    + intros _. apply ensures_bind with (Q := J).
      * apply Hstep. unfold spin. appended_walk.
      * intros _. apply Hstep. apply keeps_appended_ConnectToGoPro.
  - intros _ w [Hc HJ].
    pose proof (keeps_appended_loop cfg env fuel w) as Hk.
    destruct (loop_ cfg env fuel w) as [a w'|r w'] eqn:Hloop; cbn [final] in Hk.
    + exfalso. revert Hloop. unfold loop_, bind.
      destruct (descent cfg env fuel w) as [? w1|]; [|discriminate].
      destruct (recording cfg env fuel w1) as [? w2|]; [|discriminate].
      destruct (recovery_run env w2) as (w3 & -> & _). discriminate.
    + apply HJG. split; [exact Hc|]. eapply truncated_appended; eassumption.
Qed.

(** C9. On a card that SD.begin initialises, log.txt is truncated once, by
    initializeLog in setup, before anything is appended to it ("Hello!" is
    requested earlier, when the card is not yet initialised, and is
    dropped); from then on entries are only appended, in order.  Without a
    card the controller halts in setup and the file is never touched. *)
Theorem log_truncated_once_then_appended
    (cfg : Config) (env : Env) (fuel : nat) (previous : option (list Entry)) :
  let w' := final (program cfg env fuel (boot previous)) in
  if sd_card env
  then exists lines,
         sd_ops w' = truncation previous ++ map OpAppend lines
         /\ logfile w' = grow None lines
  else sd_ops w' = [] /\ logfile w' = previous.
Proof.
  intros w'. subst w'.
  assert (Hboot : untouched previous (boot previous)) by (now repeat split).
  pose proof (card_history cfg env fuel previous (boot previous) Hboot) as H.
  destruct (program cfg env fuel (boot previous)) as [a w'|r w']; [contradiction|].
  exact H.
Qed.

(** ** The mission runs to its end *)







Lemma connect_loop_exit body f w :
  status w = WL_CONNECTED ->
  while (S f) (fun w => Ret (negb (status w =? WL_CONNECTED)) w) body w = Ret tt w.
Proof. intros Hs. cbn [while]. unfold bind. now rewrite Hs. Qed.






Lemma mark_time_then {B} (k : M B) w :
  bind mark_time (fun _ => k) w = k (set_time_now (ulong (clock w)) w).
Proof. reflexivity. Qed.

Section Completion.
Variables (cfg : Config) (env : Env) (fuel : nat) (omax : Z).
Hypothesis Hsensor : forall k, 0 <= overhead (dht env k) <= omax.




End Completion.

(** ** Where the samples are in a trace *)

Lemma sample_events_tail s j e :
  sample_events s !! S j = Some e -> is_sample e = false.
Proof.
  unfold sample_events. cbn [lookup list_lookup].
  destruct (over80 (temp s)); cbn [app burn_events].
  - do 6 (destruct j as [|j]; [now intros [= <-]|]). discriminate.
  - destruct j as [|j]; [now intros [= <-]|]. discriminate.
Qed.

Lemma count_zero_lookup p tr : count p tr = 0%nat ->
  forall j e, tr !! j = Some e -> p e = false.
Proof.
  induction tr as [|x tr IH]; intros Hc j e Hj; [discriminate|].
  cbn [count] in Hc. destruct (p x) eqn:Hx; [discriminate|].
  destruct j as [|j]; [now injection Hj as <- | exact (IH Hc j e Hj)].
Qed.

Lemma no_sample_in_recovery ok : count is_sample (recovery_events ok) = 0%nat.
Proof. now destruct ok. Qed.

(** ** Releases between two samples *)

Lemma first_index_app_l p tr1 tr2 k :
  count p tr2 = 0%nat -> first_index p (tr1 ++ tr2) = Some k ->
  first_index p tr1 = Some k /\ (k < length tr1)%nat.
Proof.
  intros H2. revert k. induction tr1 as [|e tr1 IH]; intros k; cbn [app first_index].
  - intros Hk. exfalso. revert k Hk.
    induction tr2 as [|x tr2 IH2]; intros k Hk; [discriminate|].
    cbn [count first_index] in *. destruct (p x); [discriminate|].
    destruct (first_index p tr2) as [j|] eqn:Hj; [|discriminate].
    exact (IH2 H2 j eq_refl).
  - destruct (p e).
    + intros [= <-]. split; [reflexivity | cbn; lia].
    + destruct (first_index p (tr1 ++ tr2)) as [j|] eqn:Hj; [|discriminate].
      intros [= <-]. destruct (IH j eq_refl) as [-> Hlt].
      split; [reflexivity | cbn; lia].
Qed.

Lemma first_index_skip p mid tr k :
  count p mid = 0%nat -> first_index p (mid ++ tr) = Some k ->
  exists j, k = (length mid + j)%nat /\ first_index p tr = Some j.
Proof.
  revert k. induction mid as [|x mid IH]; intros k Hc Hk.
  - exists k. now split.
  - cbn [count] in Hc. destruct (p x) eqn:Hx; [discriminate|].
    cbn [app first_index] in Hk. rewrite Hx in Hk.
    destruct (first_index p (mid ++ tr)) as [j'|] eqn:Hj'; [|discriminate].
    injection Hk as <-.
    destruct (IH j' Hc eq_refl) as (j & -> & Hj).
    exists j. split; [reflexivity | exact Hj].
Qed.

Lemma blocks_before_sample tr : blocks tr ->
  forall k, first_index is_sample tr = Some k -> releases (take k tr) = 0%nat.
Proof.
  induction 1 as [|e tr Hq _ IH|s tr _ IH]; intros k Hk.
  - discriminate.
  - unfold quiet in Hq. apply andb_prop in Hq as [Hr Hs].
    apply negb_true_iff in Hr, Hs.
    cbn [first_index] in Hk. rewrite Hs in Hk.
    destruct (first_index is_sample tr) as [j|]; [|discriminate].
    injection Hk as <-. cbn [take]. unfold releases in *. cbn [count].
    rewrite Hr. now apply IH.
  - unfold sample_events in Hk. cbn in Hk. now injection Hk as <-.
Qed.

Lemma blocks_gap tr : blocks tr ->
  forall i h t k,
    tr !! i = Some (Sensor h t) ->
    first_index is_sample (drop (S i) tr) = Some k ->
    releases (take k (drop (S i) tr)) = (if over80 t then 1 else 0)%nat.
Proof.
  induction 1 as [|e tr Hq Hb IH|s tr Hb IH]; intros i h t k Hi Hk.
  - discriminate.
  - destruct i as [|i].
    + injection Hi as ->. discriminate.
    + cbn in Hi. cbn [drop] in Hk |- *. exact (IH i h t k Hi Hk).
  - destruct (decide (i < length (sample_events s))%nat) as [Hlt|Hge].
    + rewrite lookup_app_l in Hi by exact Hlt.
      destruct i as [|i]; [|apply sample_events_tail in Hi; discriminate].
      unfold sample_events in Hi, Hk |- *. injection Hi as _ Ht. rewrite <- Ht.
      cbn [app drop] in Hk |- *. rewrite ?drop_0 in Hk |- *.
      set (mid := (if over80 (temp s) then burn_events else []) ++ [Log (sample_log s)]) in *.
      assert (Hmid : count is_sample mid = 0%nat /\
                     releases mid = (if over80 (temp s) then 1 else 0)%nat).
      { subst mid. destruct (over80 (temp s)); split; reflexivity. }
      destruct Hmid as [Hms Hmr].
      destruct (first_index_skip _ _ _ _ Hms Hk) as (j & Hkj & Hj).
      clearbody mid. subst k.
      rewrite take_app_add'; [|reflexivity].
      unfold releases in *. rewrite count_app, Hmr.
      rewrite (blocks_before_sample tr Hb j Hj : count _ _ = _). lia.
    + rewrite lookup_app_r in Hi by lia.
      assert (Hd : drop (S i) (sample_events s ++ tr)
                   = drop (S (i - length (sample_events s))) tr).
      { rewrite drop_app_ge by lia. f_equal. lia. }
      rewrite Hd in Hk |- *. exact (IH _ h t k Hi Hk).
Qed.

(** C2, amended. A call of readDHT22Values fires the release exactly once
    when the temperature it read is strictly above 80 degrees and not at
    all otherwise (80.0 itself included), and it does so before it returns.
    Hence, in every run of the sketch, between a sample and the next one
    there is exactly one release if the first was above 80 degrees and none
    if it was not. *)
Theorem one_release_per_fault (cfg : Config) (env : Env) (fuel : nat) (w : World) :
  (exists w1,
     readDHT22Values env w = Ret tt w1
     /\ n_dht w1 = S (n_dht w)
     /\ count is_sample (new_events w w1) = 1%nat
     /\ releases (new_events w w1)
        = (if over80 (temp (dht env (n_dht w))) then 1 else 0)%nat)
  /\ (let tr := new_events w (final (program cfg env fuel w)) in
      forall i h t k,
        tr !! i = Some (Sensor h t) ->
        first_index is_sample (drop (S i) tr) = Some k ->
        releases (take k (drop (S i) tr)) = (if over80 t then 1 else 0)%nat).
Proof.
  split.
  - destruct (readDHT22Values_run env w) as (w1 & Hrun & Htr & _ & _ & Hdht & _).
    exists w1. repeat split; trivial.
    + rewrite (new_events_app _ _ _ Htr). unfold sample_events.
      cbn [count is_sample]. rewrite count_app.
      destruct (over80 _); reflexivity.
    + rewrite (new_events_app _ _ _ Htr). apply releases_sample.
  - intros tr. subst tr.
    pose proof (program_shape cfg env fuel w) as Hshape.
    destruct (program cfg env fuel w) as [a w'|r w']; [contradiction|].
    cbn [final].
    assert (Hpre : forall w1, grew_blocks w w1 -> blocks (new_events w w1)).
    { intros w1 (evs & Htr & Hb). now rewrite (new_events_app _ _ _ Htr). }
    destruct r; try (apply blocks_gap; now apply Hpre).
    destruct Hshape as (w3 & (pre & Hpre3 & Hb) & Htr).
    rewrite Hpre3, <- app_assoc in Htr.
    rewrite (new_events_app _ _ _ Htr).
    set (ok := connect env (n_connect w3)).
    intros i h t k Hi Hk.
    destruct (decide (i < length pre)%nat) as [Hlt|Hge].
    + rewrite lookup_app_l in Hi by exact Hlt.
      rewrite drop_app_le in Hk |- * by lia.
      apply (first_index_app_l _ _ _ _ (no_sample_in_recovery ok)) in Hk as [Hk Hlen].
      rewrite take_app_le by lia.
      exact (blocks_gap pre Hb i h t k Hi Hk).
    + rewrite lookup_app_r in Hi by lia.
      apply (count_zero_lookup _ _ (no_sample_in_recovery ok)) in Hi. discriminate.
Qed.

(** * Further properties of the sketch *)

(** ** Wait loop at the clock rollover *)

(** X1. When [time_now + minutes * oneMinute] passes 2^32 the deadline wraps
    below [millis()], and the wait loop returns at once: no sample, no
    delay. *)
Theorem wait_skipped_when_deadline_wraps
    (env : Env) (fuel : nat) (minutes : Z) (w : World)
    (Hfuel : (0 < fuel)%nat)
    (Hclk : 0 <= clock w < 2 ^ 32)
    (Hmark : time_now w = clock w)
    (Hdur : 0 <= minutes * oneMinute < 2 ^ 32)
    (Hwrap : 2 ^ 32 <= clock w + minutes * oneMinute) :
  sample_until env fuel minutes w = Ret tt w.
Proof.
  destruct fuel as [|f]; [lia|].
  rewrite sample_until_step. unfold deadline, ulong. rewrite Hmark.
  rewrite (Z.mod_small (clock w)) by lia.
  replace ((clock w + minutes * oneMinute) mod 2 ^ 32)
    with (clock w + minutes * oneMinute - 2 ^ 32).
  - destruct (Z.ltb_spec (clock w) (clock w + minutes * oneMinute - 2 ^ 32)); [lia|].
    reflexivity.
  - apply Z.mod_unique with 1; lia.
Qed.

Lemma wait_skipped_when_deadline_wraps_witness :
  sample_until env_calm 5 20 (set_time_now 4294000000 (tick 4294000000 (boot None)))
  = Ret tt (set_time_now 4294000000 (tick 4294000000 (boot None))).
Proof.
  apply (wait_skipped_when_deadline_wraps env_calm 5 20).
  - lia.
  - simpl. lia.
  - reflexivity.
  - unfold oneMinute. lia.
  - simpl. unfold oneMinute. lia.
Defined.

(** ** The magic packet for any identifier *)

(** X2. For any 6-byte identifier and any content of the 102-byte array, the
    two loops of SendMagicPacket leave the wake format in the array and the
    index at 102: every cell is written, none beyond the array. *)
Theorem magic_packet_any_identifier (mac garbage : list Z)
    (Hmac : length mac = 6%nat) (Hgarbage : length garbage = 102%nat) :
  let st := fill_body mac (fill_prefix (mkPS garbage 0)) in
  magicPacket st = wake_packet_spec mac
  /\ IndexArray st = 102
  /\ length (magicPacket st) = 102%nat
  /\ build_magic mac garbage = magicPacket st.
Proof.
  intros st. subst st.
  change (mkPS garbage 0) with (mkPS ([] ++ garbage) (Z.of_nat (length (@nil Z)))).
  rewrite fill_prefix_run by lia.
  cbn [app length Nat.add].
  change (Z.of_nat 6) with (Z.of_nat (length (replicate 6 0xFF))).
  unfold fill_body.
  rewrite (fill_body_run mac 16) by (trivial; rewrite length_drop; lia).
  cbn [magicPacket IndexArray]. rewrite drop_drop.
  rewrite (drop_ge garbage) by lia. rewrite app_nil_r.
  split; [reflexivity|]. split; [reflexivity|]. split.
  - rewrite length_app, length_replicate, length_repeat_mac, Hmac. reflexivity.
  - unfold build_magic.
    change (mkPS garbage 0) with (mkPS ([] ++ garbage) (Z.of_nat (length (@nil Z)))).
    rewrite fill_prefix_run by lia.
    cbn [app length Nat.add].
    change (Z.of_nat 6) with (Z.of_nat (length (replicate 6 0xFF))).
    unfold fill_body.
    rewrite (fill_body_run mac 16) by (trivial; rewrite length_drop; lia).
    cbn [magicPacket]. rewrite drop_drop.
    rewrite (drop_ge garbage) by lia. now rewrite app_nil_r.
Qed.

Lemma magic_packet_any_identifier_witness :
  let st := fill_body [1; 2; 3; 4; 5; 6] (fill_prefix (mkPS (replicate 102 170) 0)) in
  magicPacket st = wake_packet_spec [1; 2; 3; 4; 5; 6]
  /\ IndexArray st = 102
  /\ length (magicPacket st) = 102%nat
  /\ build_magic [1; 2; 3; 4; 5; 6] (replicate 102 170) = magicPacket st.
Proof.
  apply (magic_packet_any_identifier [1; 2; 3; 4; 5; 6] (replicate 102 170));
    reflexivity.
Defined.

(** ** What a bystander sees of the primitives *)

Lemma device_emit e a b : device a = device b -> device (emit e a) = device (emit e b).
Proof. unfold device. cbn. intros [=]. congruence. Qed.

Lemma device_tick ms a b : device a = device b -> device (tick ms a) = device (tick ms b).
Proof. unfold device. cbn. intros [=]. congruence. Qed.

Lemma printInLog_device env m w :
  exists w', printInLog env m w = Ret tt w' /\ device w' = device (emit (Log m) w).
Proof.
  unfold printInLog. cbn [sd_ready emit n_open].
  destruct (sd_ready w); [destruct (sd_open env (n_open w))|];
    eexists; (split; [reflexivity|]); reflexivity.
Qed.

Lemma device_effect w w' evs dt :
  device w' = device (tick dt w) -> trace w' = trace w ++ evs -> effect w w' evs dt.
Proof. unfold device. cbn. intros [=] Htr. now split. Qed.

(** ** ConnectToGoPro when the link does not come up *)

Lemma connect_body_run env w :
  exists w1,
    (printInLog env (Text "Arduino is attempting to connect to GoPro's WiFi ...") ;;
     (fun w => printInLog env (StatusCode (status w)) w) ;;
     for_each (fun _ =>
         digitalWrite LEDwifi true ;; delay 1000 ;;
         digitalWrite LEDwifi false ;; delay 1000) (upto 0 2)) w = Ret tt w1
    /\ status w1 = status w
    /\ clock w1 = clock w + 4000
    /\ exists evs, trace w1 = trace w ++ evs /\ count is_wifi_begin evs = 0%nat.
Proof.
  destruct (printInLog_device env
              (Text "Arduino is attempting to connect to GoPro's WiFi ...") w)
    as (wa & Ha & Da).
  rewrite (bind_Ret _ _ _ _ _ Ha).
  destruct (printInLog_device env (StatusCode (status wa)) wa) as (wb & Hb & Db).
  rewrite (bind_Ret (fun w => printInLog env (StatusCode (status w)) w) _ wa tt wb Hb).
  change (upto 0 2) with [0; 1]. cbn [for_each].
  eexists. split; [reflexivity|].
  unfold device in Da, Db. cbn in Da, Db. injection Da as Ca Ta _ _ Sa _ _ _ _.
  injection Db as Cb Tb _ _ Sb _ _ _ _.
  cbn. split; [congruence|]. split; [lia|].
  eexists. split.
  - rewrite Tb, Ta. rewrite <- !app_assoc. reflexivity.
  - reflexivity.
Qed.

Lemma connect_loop_spins env : forall (fuel : nat) (w : World),
  status w <> WL_CONNECTED ->
  exists w',
    while fuel (fun w => Ret (negb (status w =? WL_CONNECTED)) w)
      (printInLog env (Text "Arduino is attempting to connect to GoPro's WiFi ...") ;;
       (fun w => printInLog env (StatusCode (status w)) w) ;;
       for_each (fun _ =>
           digitalWrite LEDwifi true ;; delay 1000 ;;
           digitalWrite LEDwifi false ;; delay 1000) (upto 0 2)) w
    = Stop OutOfFuel w'
    /\ clock w' = clock w + 4000 * Z.of_nat fuel
    /\ exists evs, trace w' = trace w ++ evs /\ count is_wifi_begin evs = 0%nat.
Proof.
  induction fuel as [|fuel IH]; intros w Hs.
  - exists w. split; [reflexivity|]. split; [lia|].
    exists []. now rewrite app_nil_r.
  - cbn [while]. unfold bind at 1.
    apply Z.eqb_neq in Hs as Hb. rewrite Hb. cbn [negb].
    destruct (connect_body_run env w) as (w1 & H1 & S1 & C1 & e1 & T1 & N1).
    rewrite (bind_Ret _ _ _ _ _ H1).
    destruct (IH w1 ltac:(congruence)) as (w' & Hrun & C' & e' & T' & N').
    exists w'. split; [exact Hrun|]. split; [lia|].
    exists (e1 ++ e'). split.
    + rewrite T', T1. now rewrite app_assoc.
    + rewrite count_app. lia.
Qed.

(** X3. When the one call of WiFi.begin in ConnectToGoPro does not report
    WL_CONNECTED, the function never returns: [status] is not refreshed in
    the loop, so every iteration logs, blinks for four seconds and tests the
    same value again, and WiFi.begin is not called a second time. *)
Theorem connect_never_retries (env : Env) (fuel : nat) (w : World)
    (Hfail : wifi_begin env <> WL_CONNECTED) :
  exists w',
    ConnectToGoPro env fuel w = Stop OutOfFuel w'
    /\ clock w' = clock w + 4000 * Z.of_nat fuel
    /\ count is_wifi_begin (new_events w w') = 1%nat
    /\ status w' = wifi_begin env.
Proof.
  unfold ConnectToGoPro. unfold bind at 1.
  set (w1 := set_status (wifi_begin env) (emit (WifiBegin (wifi_begin env)) w)).
  destruct (connect_loop_spins env fuel w1 Hfail) as (w' & Hrun & C' & evs & T' & N').
  exists w'. split; [now rewrite (bind_Stop _ _ _ _ _ Hrun)|].
  split; [exact C'|]. split.
  - subst w1. cbn in T'. rewrite <- app_assoc in T'.
    rewrite (new_events_app _ _ _ T'). cbn [app count is_wifi_begin]. now rewrite N'.
  - clear C' T' N' evs.
    assert (Hst : forall f wa wb,
              while f (fun w => Ret (negb (status w =? WL_CONNECTED)) w)
                (printInLog env (Text "Arduino is attempting to connect to GoPro's WiFi ...") ;;
                 (fun w => printInLog env (StatusCode (status w)) w) ;;
                 for_each (fun _ =>
                     digitalWrite LEDwifi true ;; delay 1000 ;;
                     digitalWrite LEDwifi false ;; delay 1000) (upto 0 2)) wa
              = Stop OutOfFuel wb -> status wb = status wa).
    { induction f as [|f IH]; intros wa wb; cbn [while].
      - now intros [= <-].
      - unfold bind at 1. destruct (negb (status wa =? WL_CONNECTED)); [|discriminate].
        destruct (connect_body_run env wa) as (w2 & H2 & S2 & _).
        rewrite (bind_Ret _ _ _ _ _ H2). intros H. rewrite <- S2. now apply IH. }
    now rewrite (Hst _ _ _ Hrun).
Qed.

Lemma connect_never_retries_witness :
  exists w',
    ConnectToGoPro (mkEnv true (fun _ => true) 0 WL_IDLE_STATUS (fun _ => false)
                      (fun _ => calm) (fun _ => true) (fun _ => 0)) 3 (boot None)
    = Stop OutOfFuel w'
    /\ clock w' = clock (boot None) + 4000 * Z.of_nat 3
    /\ count is_wifi_begin (new_events (boot None) w') = 1%nat
    /\ status w' = WL_IDLE_STATUS.
Proof.
  apply (connect_never_retries
           (mkEnv true (fun _ => true) 0 WL_IDLE_STATUS (fun _ => false)
              (fun _ => calm) (fun _ => true) (fun _ => 0)) 3 (boot None)).
  simpl. discriminate.
Defined.

(** ** setup without its hardware *)

Lemma runs_rtc_set w :
  runs (act (fun w => set_rtc_zero (emit (RtcSet 0 0 0) w))) w [RtcSet 0 0 0] 0.
Proof. eexists. split; [reflexivity|]. split; cbn; trivial; lia. Qed.

Ltac step_emit :=
  lazymatch goal with
  | |- context [bind ?m (fun _ => ?k) ?w] =>
      let H := fresh "E" in
      destruct (runs_seq m k w _ _ (runs_emit _ w)) as (?w & H & ->)
  end.

Lemma setup_prologue_run env fuel w :
  exists w1,
    effect w w1 setup_prologue 0
    /\ setup env fuel w
       = ((ok <- SD_begin env ;;
           if negb ok
           then printInLog env (Text "SD card failed, or not present in MEM Shield") ;; spin
           else initializeLog) ;;
          (act (emit (WifiStatus (wifi_status env))) ;;
           if wifi_status env =? WL_NO_SHIELD
           then printInLog env (Text "WiFi chipset not present in Arduino") ;; spin
           else ret tt) ;;
          ConnectToGoPro env fuel) w1.
Proof.
  unfold setup, pinMode, digitalWrite.
  do 8 step_emit.
  lazymatch goal with
  | |- context [bind ?m (fun _ => ?k) ?w] =>
      destruct (runs_seq m k w _ _ (runs_printInLog env _ w)) as (w8 & E8 & ->)
  end.
  step_emit.
  lazymatch goal with
  | |- context [bind ?m (fun _ => ?k) ?w] =>
      destruct (runs_seq m k w _ _ (runs_rtc_set w)) as (w10 & E10 & ->)
  end.
  step_emit.
  eexists. split; [|reflexivity].
  repeat match goal with
         | H1 : effect ?a ?b _ _, H2 : effect ?b ?c _ _ |- _ =>
             pose proof (effect_trans _ _ _ _ _ _ _ H1 H2); clear H1 H2
         end.
  assumption.
Qed.

(** X4. setup halts for good, without ever calling WiFi.begin and without
    any time passing, when the SD card does not initialise or, the card being
    there, when the WiFi module is absent; the last thing it does is to
    request the log entry that names the missing part. *)
Theorem setup_halts_without_hardware (env : Env) (fuel : nat) (w : World)
    (Hmissing : sd_card env = false \/ wifi_status env = WL_NO_SHIELD) :
  exists w',
    setup env fuel w = Stop Halted w'
    /\ clock w' = clock w
    /\ new_events w w'
       = setup_prologue ++
         (if sd_card env
          then [SdBegin true; WifiStatus WL_NO_SHIELD;
                Log (Text "WiFi chipset not present in Arduino")]
          else [SdBegin false;
                Log (Text "SD card failed, or not present in MEM Shield")])
    /\ count is_wifi_begin (new_events w w') = 0%nat.
Proof.
  destruct (setup_prologue_run env fuel w) as (w1 & [T1 C1 _ _ _ _] & ->).
  assert (Hgoal : forall w' tail,
            trace w' = trace w1 ++ tail -> clock w' = clock w1 ->
            count is_wifi_begin tail = 0%nat ->
            clock w' = clock w
            /\ new_events w w' = setup_prologue ++ tail
            /\ count is_wifi_begin (new_events w w') = 0%nat).
  { intros w' tail Ht Hc Hn. rewrite T1, <- app_assoc in Ht.
    rewrite (new_events_app _ _ _ Ht). split; [lia|]. split; [reflexivity|].
    rewrite count_app, Hn. reflexivity. }
  unfold bind at 1. unfold bind at 1. unfold SD_begin at 1.
  destruct (sd_card env) eqn:Hcard; cbn [negb].
  - destruct Hmissing as [|Hshield]; [discriminate|].
    set (w2 := set_sd true (logfile w1) (sd_ops w1) (emit (SdBegin true) w1)).
    assert (Hinit : exists w3, initializeLog w2 = Ret tt w3
              /\ device w3 = device (emit (SdBegin true) w1)).
    { unfold initializeLog. destruct (logfile w2); eexists; split; reflexivity. }
    destruct Hinit as (w3 & -> & D3).
    unfold bind at 1. unfold bind at 1. unfold act at 1.
    rewrite Hshield. cbn [Z.eqb WL_NO_SHIELD Pos.eqb].
    set (w4 := emit (WifiStatus WL_NO_SHIELD) w3).
    destruct (printInLog_device env (Text "WiFi chipset not present in Arduino") w4)
      as (w5 & H5 & D5).
    unfold bind at 1. rewrite H5. unfold spin.
    exists w5. split; [reflexivity|].
    unfold device in D3, D5. cbn in D3, D5.
    injection D3 as C3 T3. injection D5 as C5 T5.
    apply Hgoal; [|lia|reflexivity].
    rewrite T5, T3, <- !app_assoc. reflexivity.
  - set (w2 := set_sd false (logfile w1) (sd_ops w1) (emit (SdBegin false) w1)).
    destruct (printInLog_device env
                (Text "SD card failed, or not present in MEM Shield") w2)
      as (w3 & H3 & D3).
    unfold bind at 1. rewrite H3. unfold spin.
    exists w3. split; [reflexivity|].
    unfold device in D3. cbn in D3. injection D3 as C3 T3.
    apply Hgoal; [|lia|reflexivity].
    rewrite T3, <- !app_assoc. reflexivity.
Qed.

Lemma setup_halts_without_hardware_witness :
  exists w',
    setup (mkEnv false (fun _ => true) 0 WL_CONNECTED (fun _ => false)
             (fun _ => calm) (fun _ => true) (fun _ => 0)) 3 (boot None)
    = Stop Halted w'
    /\ clock w' = clock (boot None)
    /\ new_events (boot None) w'
       = setup_prologue ++
         [SdBegin false; Log (Text "SD card failed, or not present in MEM Shield")]
    /\ count is_wifi_begin (new_events (boot None) w') = 0%nat.
Proof.
  apply (setup_halts_without_hardware
           (mkEnv false (fun _ => true) 0 WL_CONNECTED (fun _ => false)
              (fun _ => calm) (fun _ => true) (fun _ => 0)) 3 (boot None)).
  left. reflexivity.
Defined.

(** ** The trigger *)

Lemma poll_loop_exact env : forall (p fuel : nat) (w : World),
  (p + 2 <= fuel)%nat -> switchState w = true ->
  (forall q, (q < p)%nat -> magswitch env (n_poll w + q) = true) ->
  magswitch env (n_poll w + p) = false ->
  exists w',
    while fuel (fun w => Ret (switchState w) w)
      (b <- digitalRead_magswitch env ;; act (set_switchState b)) w = Ret tt w'
    /\ trace w' = trace w ++ replicate p (DigitalRead magswitchPin true)
                  ++ [DigitalRead magswitchPin false]
    /\ clock w' = clock w /\ time_now w' = time_now w /\ n_dht w' = n_dht w
    /\ n_connect w' = n_connect w /\ n_poll w' = (n_poll w + S p)%nat.
Proof.
  induction p as [|p IH]; intros fuel w Hfuel Hs Hhigh Hlow.
  - destruct fuel as [|[|fuel]]; [lia|lia|].
    cbn [while]. unfold bind at 1. rewrite Hs.
    unfold bind at 1 2, digitalRead_magswitch, act.
    rewrite Nat.add_0_r in Hlow. rewrite Hlow.
    unfold bind at 1. cbn [switchState set_switchState].
    eexists. split; [reflexivity|]. cbn. repeat split; trivial; lia.
  - destruct fuel as [|fuel]; [lia|].
    cbn [while]. unfold bind at 1. rewrite Hs.
    unfold bind at 1 2, digitalRead_magswitch, act.
    assert (H0 : magswitch env (n_poll w) = true).
    { rewrite <- (Nat.add_0_r (n_poll w)). apply Hhigh. lia. }
    rewrite H0.
    set (w1 := set_switchState true (emit (DigitalRead magswitchPin true) (next_poll w))).
    destruct (IH fuel w1) as (w' & Hrun & T & C & N & D & K & P).
    + lia.
    + reflexivity.
    + intros q Hq. subst w1. cbn [n_poll set_switchState emit next_poll].
      replace (S (n_poll w) + q)%nat with (n_poll w + S q)%nat by lia.
      apply Hhigh. lia.
    + subst w1. cbn [n_poll set_switchState emit next_poll].
      now replace (S (n_poll w) + p)%nat with (n_poll w + S p)%nat by lia.
    + exists w'. split; [exact Hrun|]. subst w1. cbn in *.
      rewrite T, <- app_assoc. repeat split; trivial; lia.
Qed.

Lemma MagneticSwitch_exact env fuel p w :
  (p < fuel)%nat ->
  (forall q, (q < p)%nat -> magswitch env (n_poll w + q) = true) ->
  magswitch env (n_poll w + p) = false ->
  exists w',
    MagneticSwitch env fuel w = Ret tt w'
    /\ trace w' = trace w ++
         DigitalWrite LEDmagswitch false ::
         replicate p (DigitalRead magswitchPin true) ++
         [DigitalRead magswitchPin false; DigitalWrite LEDmagswitch true;
          Log (Text "Magnetic switch activated")]
    /\ clock w' = clock w /\ time_now w' = time_now w /\ n_dht w' = n_dht w
    /\ n_connect w' = n_connect w /\ n_poll w' = (n_poll w + S p)%nat.
Proof.
  intros Hp Hhigh Hlow. unfold MagneticSwitch.
  unfold bind at 1, digitalWrite at 1, act at 1.
  unfold bind at 1. unfold bind at 1, digitalRead_magswitch at 1, act at 1.
  cbn [n_poll emit].
  set (b := magswitch env (n_poll w)).
  set (w1 := set_switchState b
               (emit (DigitalRead magswitchPin b)
                  (next_poll (emit (DigitalWrite LEDmagswitch false) w)))).
  assert (Hloop : exists w2,
            while fuel (fun w => Ret (switchState w) w)
              (b <- digitalRead_magswitch env ;; act (set_switchState b)) w1
            = Ret tt w2
            /\ trace w2 = trace w ++
                 DigitalWrite LEDmagswitch false ::
                 replicate p (DigitalRead magswitchPin true) ++
                 [DigitalRead magswitchPin false]
            /\ clock w2 = clock w /\ time_now w2 = time_now w /\ n_dht w2 = n_dht w
            /\ n_connect w2 = n_connect w /\ n_poll w2 = (n_poll w + S p)%nat).
  { destruct p as [|p].
    - assert (Hb : b = false) by (subst b; now rewrite Nat.add_0_r in Hlow).
      destruct fuel as [|fuel]; [lia|]. cbn [while]. unfold bind at 1.
      subst w1. rewrite Hb. cbn [switchState set_switchState].
      eexists. split; [reflexivity|]. cbn.
      rewrite <- app_assoc. repeat split; trivial; lia.
    - assert (Hb : b = true).
      { subst b. rewrite <- (Nat.add_0_r (n_poll w)). apply Hhigh. lia. }
      destruct (poll_loop_exact env p fuel w1) as (w2 & Hrun & T & C & N & D & K & P).
      + lia.
      + subst w1. now rewrite Hb.
      + intros q Hq. subst w1. cbn [n_poll set_switchState emit next_poll].
        replace (S (n_poll w) + q)%nat with (n_poll w + S q)%nat by lia.
        apply Hhigh. lia.
      + subst w1. cbn [n_poll set_switchState emit next_poll].
        now replace (S (n_poll w) + p)%nat with (n_poll w + S p)%nat by lia.
      + exists w2. split; [exact Hrun|]. subst w1. rewrite Hb in *. cbn in *.
        rewrite T, <- !app_assoc. repeat split; trivial; lia. }
  destruct Hloop as (w2 & Hrun & T & C & N & D & K & P).
  unfold bind at 1. rewrite Hrun.
  destruct (runs_seq (digitalWrite LEDmagswitch true)
              (printInLog env (Text "Magnetic switch activated"))
              w2 _ _ (runs_digitalWrite _ _ w2)) as (w3 & [T3 C3 N3 P3 D3 K3] & ->).
  destruct (runs_printInLog env (Text "Magnetic switch activated") w3)
    as (w4 & H4 & [T4 C4 N4 P4 D4 K4]).
  exists w4. split; [exact H4|].
  rewrite T4, T3, T, C4, C3, C, N4, N3, N, P4, P3, P, D4, D3, D, K4, K3, K.
  rewrite <- !app_assoc. cbn [app].
  repeat split; trivial; try lia.
  change (DigitalWrite LEDmagswitch false ::
          replicate p (DigitalRead magswitchPin true) ++ [DigitalRead magswitchPin false])
    with ([DigitalWrite LEDmagswitch false] ++
          replicate p (DigitalRead magswitchPin true) ++ [DigitalRead magswitchPin false]).
  rewrite <- !app_assoc. reflexivity.
Qed.

(** X5. MagneticSwitch returns at the first LOW read of the switch: with the
    first [p] reads HIGH and read [p] LOW it polls exactly [p + 1] times,
    takes no time, and switches the yellow LED on only afterwards. *)
Theorem trigger_returns_at_first_low (env : Env) (fuel p : nat) (w : World)
    (Hfuel : (p < fuel)%nat)
    (Hhigh : forall q, (q < p)%nat -> magswitch env (n_poll w + q) = true)
    (Hlow : magswitch env (n_poll w + p) = false) :
  exists w',
    MagneticSwitch env fuel w = Ret tt w'
    /\ new_events w w'
       = DigitalWrite LEDmagswitch false ::
         replicate p (DigitalRead magswitchPin true) ++
         [DigitalRead magswitchPin false; DigitalWrite LEDmagswitch true;
          Log (Text "Magnetic switch activated")]
    /\ n_poll w' = (n_poll w + S p)%nat
    /\ clock w' = clock w.
Proof.
  destruct (MagneticSwitch_exact env fuel p w Hfuel Hhigh Hlow)
    as (w' & Hrun & T & C & _ & _ & _ & P).
  exists w'. split; [exact Hrun|]. rewrite (new_events_app _ _ _ T). now repeat split.
Qed.

Lemma trigger_returns_at_first_low_witness :
  exists w',
    MagneticSwitch env_calm 5 (boot None) = Ret tt w'
    /\ new_events (boot None) w'
       = DigitalWrite LEDmagswitch false ::
         replicate 2 (DigitalRead magswitchPin true) ++
         [DigitalRead magswitchPin false; DigitalWrite LEDmagswitch true;
          Log (Text "Magnetic switch activated")]
    /\ n_poll w' = (n_poll (boot None) + 3)%nat
    /\ clock w' = clock (boot None).
Proof.
  apply (trigger_returns_at_first_low env_calm 5 2 (boot None)).
  - lia.
  - intros q Hq. simpl. destruct q as [|[|q]]; [reflexivity | reflexivity | lia].
  - reflexivity.
Defined.

Lemma poll_loop_spins env : forall (fuel : nat) (w : World),
  switchState w = true ->
  (forall q, magswitch env (n_poll w + q) = true) ->
  exists w',
    while fuel (fun w => Ret (switchState w) w)
      (b <- digitalRead_magswitch env ;; act (set_switchState b)) w
    = Stop OutOfFuel w'
    /\ trace w' = trace w ++ replicate fuel (DigitalRead magswitchPin true)
    /\ clock w' = clock w.
Proof.
  induction fuel as [|fuel IH]; intros w Hs Hhigh.
  - exists w. split; [reflexivity|]. cbn. now rewrite app_nil_r.
  - cbn [while]. unfold bind at 1. rewrite Hs.
    unfold bind at 1 2, digitalRead_magswitch, act.
    assert (H0 : magswitch env (n_poll w) = true).
    { rewrite <- (Nat.add_0_r (n_poll w)). apply Hhigh. }
    rewrite H0.
    set (w1 := set_switchState true (emit (DigitalRead magswitchPin true) (next_poll w))).
    destruct (IH w1) as (w' & Hrun & T & C).
    + reflexivity.
    + intros q. subst w1. cbn [n_poll set_switchState emit next_poll].
      replace (S (n_poll w) + q)%nat with (n_poll w + S q)%nat by lia. apply Hhigh.
    + exists w'. split; [exact Hrun|]. subst w1. cbn in *.
      rewrite T, <- app_assoc. now split.
Qed.

(** X6. MagneticSwitch has no timeout: while the switch reads HIGH it only
    polls, takes no time, and the yellow LED stays off. *)
Theorem trigger_waits_while_high (env : Env) (fuel : nat) (w : World)
    (Hhigh : forall q, magswitch env (n_poll w + q) = true) :
  exists w',
    MagneticSwitch env fuel w = Stop OutOfFuel w'
    /\ new_events w w'
       = DigitalWrite LEDmagswitch false ::
         replicate (S fuel) (DigitalRead magswitchPin true)
    /\ clock w' = clock w.
Proof.
  unfold MagneticSwitch.
  unfold bind at 1, digitalWrite at 1, act at 1.
  unfold bind at 1. unfold bind at 1, digitalRead_magswitch at 1, act at 1.
  cbn [n_poll emit].
  assert (H0 : magswitch env (n_poll w) = true).
  { rewrite <- (Nat.add_0_r (n_poll w)). apply Hhigh. }
  rewrite H0.
  set (w1 := set_switchState true
               (emit (DigitalRead magswitchPin true)
                  (next_poll (emit (DigitalWrite LEDmagswitch false) w)))).
  destruct (poll_loop_spins env fuel w1) as (w' & Hrun & T & C).
  - reflexivity.
  - intros q. subst w1. cbn [n_poll set_switchState emit next_poll].
    replace (S (n_poll w) + q)%nat with (n_poll w + S q)%nat by lia. apply Hhigh.
  - exists w'. unfold bind at 1. rewrite Hrun. split; [reflexivity|].
    subst w1. cbn in T, C. rewrite <- !app_assoc in T.
    rewrite (new_events_app _ _ _ T). now split.
Qed.

Lemma trigger_waits_while_high_witness :
  exists w',
    MagneticSwitch env_untripped 3 (boot None) = Stop OutOfFuel w'
    /\ new_events (boot None) w'
       = DigitalWrite LEDmagswitch false :: replicate 4 (DigitalRead magswitchPin true)
    /\ clock w' = clock (boot None).
Proof.
  apply (trigger_waits_while_high env_untripped 3 (boot None)).
  intros q. reflexivity.
Defined.

(** ** The burn wire *)

Lemma sample_release_followed s j e :
  sample_events s !! j = Some e -> is_release e = true ->
  exists rest,
    drop (S j) (sample_events s)
    = Delay (oneMinute * 10) :: DigitalWrite burnwirePin false :: rest.
Proof.
  unfold sample_events.
  destruct (over80 (temp s)); cbn [app burn_events].
  - do 7 (destruct j as [|j];
          [intros [= <-]; try discriminate; intros _; now eexists|]).
    discriminate.
  - do 2 (destruct j as [|j]; [intros [= <-]; discriminate|]). discriminate.
Qed.

Lemma blocks_release_followed tr : blocks tr ->
  forall i e, tr !! i = Some e -> is_release e = true ->
  exists rest,
    drop (S i) tr = Delay (oneMinute * 10) :: DigitalWrite burnwirePin false :: rest.
Proof.
  induction 1 as [|x tr Hq _ IH|s tr _ IH]; intros i e Hi He.
  - discriminate.
  - destruct i as [|i].
    + injection Hi as ->. unfold quiet in Hq. rewrite He in Hq. discriminate.
    + exact (IH i e Hi He).
  - destruct (decide (i < length (sample_events s))%nat) as [Hlt|Hge].
    + rewrite lookup_app_l in Hi by exact Hlt.
      destruct (sample_release_followed s i e Hi He) as (rest & Hrest).
      exists (rest ++ tr).
      rewrite drop_app_le by lia. now rewrite Hrest.
    + rewrite lookup_app_r in Hi by lia.
      destruct (IH _ e Hi He) as (rest & Hrest).
      exists rest. rewrite <- Hrest.
      rewrite drop_app_ge by lia. f_equal. lia.
Qed.

Lemma lookup_skip (p : event -> bool) (a x : list event) j e :
  count p a = 0%nat -> (a ++ x) !! j = Some e -> p e = true ->
  (length a <= j)%nat /\ x !! (j - length a)%nat = Some e.
Proof.
  intros Ha Hj He.
  destruct (decide (j < length a)%nat) as [Hlt|Hge].
  - rewrite lookup_app_l in Hj by exact Hlt.
    rewrite (count_zero_lookup _ _ Ha _ _ Hj) in He. discriminate.
  - rewrite lookup_app_r in Hj by lia. split; [lia | exact Hj].
Qed.

Lemma recovery_release_followed ok j e :
  recovery_events ok !! j = Some e -> is_release e = true ->
  exists rest,
    drop (S j) (recovery_events ok)
    = Delay (oneMinute * 10) :: DigitalWrite burnwirePin false :: rest.
Proof.
  unfold recovery_events. rewrite !app_assoc.
  set (a := ((command_events StopUrl "Stop recording failed" "GoPro stopped recording" ok
              ++ ramp_events 50 (downto 255 0))
             ++ [DigitalWrite lightsPin false; Log (Text "Turning lights off")])).
  rewrite <- app_assoc.
  assert (Ha : count is_release a = 0%nat) by (subst a; now destruct ok).
  intros Hj He.
  destruct (lookup_skip is_release a _ j e Ha Hj He) as [Hle Hx].
  rewrite drop_app_ge by lia.
  replace (S j - length a)%nat with (S (j - length a)) by lia.
  revert Hx. generalize (j - length a)%nat as k. intros k.
  cbn [app burn_events].
  do 8 (destruct k as [|k];
        [intros [= <-]; try discriminate; now eexists|]).
  discriminate.
Qed.

(** X7. Whenever the burn wire is switched on, in any run of the sketch, the
    very next things the controller does are to wait ten minutes and to
    switch it off: no run leaves the wire energised, whether it ends in a
    halt, in the terminal idle or in a loop that goes on. *)
Theorem release_holds_ten_minutes (cfg : Config) (env : Env) (fuel : nat) (w : World) :
  let tr := new_events w (final (program cfg env fuel w)) in
  forall i,
    tr !! i = Some (DigitalWrite burnwirePin true) ->
    tr !! S i = Some (Delay 600000)
    /\ tr !! S (S i) = Some (DigitalWrite burnwirePin false).
Proof.
  intros tr.
  assert (Hdrop : forall i,
            tr !! i = Some (DigitalWrite burnwirePin true) ->
            exists rest,
              drop (S i) tr
              = Delay (oneMinute * 10) :: DigitalWrite burnwirePin false :: rest).
  { subst tr.
    pose proof (program_shape cfg env fuel w) as Hshape.
    destruct (program cfg env fuel w) as [a w'|r w']; [contradiction|].
    cbn [final].
    assert (Hpre : forall w1, grew_blocks w w1 -> blocks (new_events w w1)).
    { intros w1 (evs & Htr & Hb). now rewrite (new_events_app _ _ _ Htr). }
    destruct r;
      try (intros i Hi; apply (blocks_release_followed _ (Hpre _ Hshape) i _ Hi);
           reflexivity).
    destruct Hshape as (w3 & (pre & Hpre3 & Hb) & Htr).
    rewrite Hpre3, <- app_assoc in Htr.
    rewrite (new_events_app _ _ _ Htr).
    intros i Hi.
    destruct (decide (i < length pre)%nat) as [Hlt|Hge].
    - rewrite lookup_app_l in Hi by exact Hlt.
      destruct (blocks_release_followed pre Hb i _ Hi eq_refl) as (rest & Hrest).
      eexists. rewrite drop_app_le by lia. rewrite Hrest. reflexivity.
    - rewrite lookup_app_r in Hi by lia.
      destruct (recovery_release_followed _ _ _ Hi eq_refl) as (rest & Hrest).
      exists rest. rewrite <- Hrest.
      rewrite drop_app_ge by lia. f_equal. lia. }
  intros i Hi. destruct (Hdrop i Hi) as (rest & Hrest).
  split.
  - replace (S i) with (S i + 0)%nat by lia. rewrite <- lookup_drop, Hrest. reflexivity.
  - replace (S (S i)) with (S i + 1)%nat by lia. rewrite <- lookup_drop, Hrest. reflexivity.
Qed.

Lemma release_holds_ten_minutes_witness :
  let tr := new_events (boot None) (final (program short_mission env_hot 5 (boot None))) in
  tr !! 566%nat = Some (Delay 600000)
  /\ tr !! 567%nat = Some (DigitalWrite burnwirePin false).
Proof.
  apply (release_holds_ten_minutes short_mission env_hot 5 (boot None) 565%nat).
  vm_compute. reflexivity.
Defined.

(** ** Logging never steers the mission *)

Lemma alike_leaf {A} (m1 m2 : M A) :
  (forall w1 w2, device w1 = device w2 ->
     exists a u1 u2, m1 w1 = Ret a u1 /\ m2 w2 = Ret a u2 /\ device u1 = device u2) ->
  alike m1 m2.
Proof.
  intros H w1 w2 Hd. destruct (H w1 w2 Hd) as (a & u1 & u2 & -> & -> & Hu).
  now split.
Qed.

Lemma alike_stop {A} r : alike (Stop r : M A) (Stop r).
Proof. intros w1 w2 Hd. now split. Qed.

Lemma alike_bind {A B} (m1 m2 : M A) (k1 k2 : A -> M B) :
  alike m1 m2 -> (forall a, alike (k1 a) (k2 a)) -> alike (bind m1 k1) (bind m2 k2).
Proof.
  intros Hm Hk w1 w2 Hd. unfold bind. specialize (Hm w1 w2 Hd).
  destruct (m1 w1) as [a1 u1|r1 u1], (m2 w2) as [a2 u2|r2 u2];
    cbn [same_device] in Hm; try contradiction.
  - destruct Hm as [<- Hu]. now apply Hk.
  - exact Hm.
Qed.

Lemma alike_for_each {A} (b1 b2 : A -> M unit) (l : list A) :
  (forall x, alike (b1 x) (b2 x)) -> alike (for_each b1 l) (for_each b2 l).
Proof.
  intros Hb. induction l as [|x l IH]; cbn [for_each].
  - apply alike_leaf. intros w1 w2 Hd. now exists tt, w1, w2.
  - apply alike_bind; [apply Hb | intros _; exact IH].
Qed.

Lemma alike_while fuel (c1 c2 : M bool) (b1 b2 : M unit) :
  alike c1 c2 -> alike b1 b2 -> alike (while fuel c1 b1) (while fuel c2 b2).
Proof.
  intros Hc Hb. induction fuel as [|fuel IH]; cbn [while].
  - apply alike_stop.
  - apply alike_bind; [exact Hc|]. intros [|].
    + apply alike_bind; [exact Hb | intros _; exact IH].
    + apply alike_leaf. intros w1 w2 Hd. now exists tt, w1, w2.
Qed.

Lemma alike_printInLog env1 env2 m : alike (printInLog env1 m) (printInLog env2 m).
Proof.
  apply alike_leaf. intros w1 w2 Hd.
  destruct (printInLog_device env1 m w1) as (u1 & H1 & D1).
  destruct (printInLog_device env2 m w2) as (u2 & H2 & D2).
  exists tt, u1, u2. repeat split; trivial.
  rewrite D1, D2. now apply device_emit.
Qed.

Lemma alike_initializeLog : alike initializeLog initializeLog.
Proof.
  apply alike_leaf. intros w1 w2 Hd. unfold initializeLog.
  destruct (logfile w1), (logfile w2); eexists tt, _, _;
    (split; [reflexivity|]); (split; [reflexivity|]); exact Hd.
Qed.

Ltac alike_leaf_tac :=
  apply alike_leaf;
  let w1 := fresh "wa" in let w2 := fresh "wb" in let Hd := fresh "Hd" in
  let Hc := fresh "Hc" in let Ht := fresh "Ht" in let Htn := fresh "Htn" in
  let Hsw := fresh "Hsw" in let Hst := fresh "Hst" in let Hr := fresh "Hr" in
  let Hp := fresh "Hp" in let Hdh := fresh "Hdh" in let Hk := fresh "Hk" in
  intros w1 w2 Hd; unfold device in Hd;
  injection Hd as Hc Ht Htn Hsw Hst Hr Hp Hdh Hk;
  eexists _, _, _;
  (split; [reflexivity|]);
  (split;
   [ cbn; rewrite <- ?Hc, <- ?Hp, <- ?Hdh, <- ?Hk, <- ?Hst, <- ?Hsw, <- ?Htn; reflexivity
   | unfold device; cbn; congruence ]).

Ltac alike_walk :=
  repeat first
    [ assumption
    | apply alike_stop
    | apply alike_printInLog
    | apply alike_initializeLog
    | apply alike_bind; [|intros ?]
    | apply alike_for_each; intros ?
    | apply alike_while
    | match goal with
      | |- alike (if ?b then _ else _) (if ?b then _ else _) => destruct b
      | |- alike (fun u => printInLog ?e1 (StatusCode (status u)) u)
                 (fun v => printInLog ?e2 (StatusCode (status v)) v) =>
          let w1 := fresh "wa" in let w2 := fresh "wb" in let Hd := fresh "Hd" in
          intros w1 w2 Hd;
          replace (status w2) with (status w1)
            by (unfold device in Hd; now injection Hd);
          apply (alike_printInLog e1 e2 (StatusCode (status w1)) w1 w2 Hd)
      end
    | alike_leaf_tac ].

Lemma alike_ramp ms levels :
  alike (for_each (fun i => analogWrite lightsPin i ;; delay ms) levels)
        (for_each (fun i => analogWrite lightsPin i ;; delay ms) levels).
Proof. unfold analogWrite, delay, act. alike_walk. Qed.

Lemma alike_BurnWire env1 env2 : alike (BurnWire env1) (BurnWire env2).
Proof. unfold BurnWire, digitalWrite, delay, act. alike_walk. Qed.

Section Sinks.
Variables (env : Env) (g : nat -> bool).
Let env' := with_sd_open env g.

Lemma alike_sample_until fuel minutes :
  alike (sample_until env fuel minutes) (sample_until env' fuel minutes).
Proof.
  pose proof (alike_BurnWire env env').
  unfold sample_until, readDHT22Values, read_dht, millis, delay, act, deadline, ret.
  subst env'. cbn [with_sd_open dht]. alike_walk.
Qed.

Lemma alike_ConnectToGoPro fuel :
  alike (ConnectToGoPro env fuel) (ConnectToGoPro env' fuel).
Proof.
  unfold ConnectToGoPro, digitalWrite, delay, act.
  subst env'. cbn [with_sd_open wifi_begin]. alike_walk.
Qed.

Lemma alike_setup fuel : alike (setup env fuel) (setup env' fuel).
Proof.
  pose proof (alike_ConnectToGoPro fuel).
  unfold setup, pinMode, digitalWrite, SD_begin, act, spin, ret.
  subst env'. cbn [with_sd_open wifi_status sd_card] in *. alike_walk.
Qed.

Lemma alike_loop cfg fuel : alike (loop_ cfg env fuel) (loop_ cfg env' fuel).
Proof.
  pose proof (alike_BurnWire env env').
  pose proof (alike_sample_until fuel (dropTime cfg)).
  pose proof (alike_sample_until fuel (recordingTime cfg)).
  pose proof (alike_ramp 5 (upto 0 255)) as Hup.
  pose proof (alike_ramp 50 (downto 255 0)) as Hdown.
  fold rampUp in Hup. fold rampDown in Hdown.
  assert (Hmagic : alike (SendMagicPacket env) (SendMagicPacket env')).
  { unfold SendMagicPacket, act. alike_leaf_tac. }
  unfold loop_, descent, recording, recovery, MagneticSwitch, WakeupGoPro,
    StartRecording, StopRecording, DisconnectFromGoPro, mark_time, idle,
    digitalRead_magswitch, client_connect, client_print, millis,
    digitalWrite, delay, act, ret.
  subst env'. cbn [with_sd_open magswitch connect] in *. alike_walk.
Qed.
End Sinks.

(** X9. Logging is best effort and never steers the mission: two runs in
    environments that differ only in which SD.open calls succeed, started
    with whatever is on the card, end the same way, at the same time, with
    the same trace and the same state of the sketch. *)
Theorem logging_never_steers_mission
    (cfg : Config) (env : Env) (g : nat -> bool) (fuel : nat) (w1 w2 : World)
    (Hdev : device w1 = device w2) :
  same_device (program cfg env fuel w1) (program cfg (with_sd_open env g) fuel w2).
Proof.
  revert w1 w2 Hdev. change (alike (program cfg env fuel)
                               (program cfg (with_sd_open env g) fuel)).
  unfold program. apply alike_bind; [apply alike_setup | intros _; apply alike_loop].
Qed.

Lemma logging_never_steers_mission_witness :
  same_device (program short_mission env_hot 5 (boot None))
              (program short_mission (with_sd_open env_hot (fun _ => false)) 5
                 (boot (Some []))).
Proof.
  apply (logging_never_steers_mission short_mission env_hot (fun _ => false) 5
           (boot None) (boot (Some []))).
  reflexivity.
Defined.

(** ** Counting what a run does *)

Lemma atmost_refl p w : atmost p 0 w w.
Proof. exists []. split; [now rewrite app_nil_r | reflexivity]. Qed.

Lemma atmost_trans p a b w1 w2 w3 :
  atmost p a w1 w2 -> atmost p b w2 w3 -> atmost p (a + b) w1 w3.
Proof.
  intros (e1 & T1 & N1) (e2 & T2 & N2). exists (e1 ++ e2). split.
  - rewrite T2, T1. now rewrite app_assoc.
  - rewrite count_app. lia.
Qed.

Lemma atmost_weaken p a b w w' : (a <= b)%nat -> atmost p a w w' -> atmost p b w w'.
Proof. intros Hab (evs & T & N). exists evs. split; [exact T | lia]. Qed.

Lemma keeps_atmost_bind p a b {A B} (m : M A) (k : A -> M B) :
  keeps (atmost p a) m -> (forall x, keeps (atmost p b) (k x)) ->
  keeps (atmost p (a + b)) (bind m k).
Proof.
  intros Hm Hk w. unfold bind. specialize (Hm w).
  destruct (m w) as [x w1|r w1]; cbn [final] in *.
  - eapply atmost_trans; [exact Hm | apply Hk].
  - eapply atmost_weaken; [|exact Hm]. lia.
Qed.

Lemma keeps_none_bind p {A B} (m : M A) (k : A -> M B) :
  keeps (atmost p 0) m -> (forall x, keeps (atmost p 0) (k x)) ->
  keeps (atmost p 0) (bind m k).
Proof. intros Hm Hk. exact (keeps_atmost_bind p 0 0 m k Hm Hk). Qed.

Lemma atmost_none_trans p a b c :
  atmost p 0 a b -> atmost p 0 b c -> atmost p 0 a c.
Proof. intros H1 H2. exact (atmost_trans p 0 0 _ _ _ H1 H2). Qed.

Lemma keeps_none_leaf p {A} (m : M A) :
  (forall w, exists a w', m w = Ret a w' /\
     (trace w' = trace w \/ exists e, trace w' = trace w ++ [e] /\ p e = false)) ->
  keeps (atmost p 0) m.
Proof.
  intros H w. destruct (H w) as (a & w' & -> & [Ht|(e & Ht & He)]); cbn [final].
  - exists []. split; [now rewrite Ht, app_nil_r | reflexivity].
  - exists [e]. split; [exact Ht|]. cbn. now rewrite He.
Qed.

Lemma keeps_none_printInLog p env m :
  p (Log m) = false -> keeps (atmost p 0) (printInLog env m).
Proof.
  intros Hp. apply keeps_none_leaf. intros w.
  destruct (runs_printInLog env m w) as (w' & Hrun & [Ht _ _ _ _ _]).
  exists tt, w'. split; [exact Hrun|]. right. now exists (Log m).
Qed.

Lemma keeps_none_initializeLog p : keeps (atmost p 0) initializeLog.
Proof.
  apply keeps_none_leaf. intros w. unfold initializeLog.
  destruct (logfile w); eexists tt, _; (split; [reflexivity|]); now left.
Qed.

Section NoRetry.
Variable p : event -> bool.
Hypothesis p_log : forall m, p (Log m) = false.
Hypothesis p_digital : forall pin b, p (DigitalWrite pin b) = false.
Hypothesis p_analog : forall pin d, p (AnalogWrite pin d) = false.
Hypothesis p_delay : forall ms, p (Delay ms) = false.
Hypothesis p_sensor : forall h t, p (Sensor h t) = false.
Hypothesis p_read : forall pin b, p (DigitalRead pin b) = false.

Lemma keeps_none_log env m : keeps (atmost p 0) (printInLog env m).
Proof. apply keeps_none_printInLog, p_log. Qed.

Lemma keeps_none_emit e : p e = false -> keeps (atmost p 0) (act (emit e)).
Proof.
  intros He. apply keeps_none_leaf. intros w. eexists tt, _.
  split; [reflexivity|]. right. now exists e.
Qed.

Lemma keeps_none_delay ms : keeps (atmost p 0) (delay ms).
Proof.
  apply keeps_none_leaf. intros w. eexists tt, _.
  split; [reflexivity|]. right. exists (Delay ms). split; [reflexivity | apply p_delay].
Qed.

Lemma keeps_none_ramp ms levels :
  keeps (atmost p 0) (for_each (fun i => analogWrite lightsPin i ;; delay ms) levels).
Proof.
  apply keeps_for_each; [apply atmost_refl | apply atmost_none_trans | intros i].
  apply keeps_none_bind; [apply keeps_none_emit, p_analog | intros _; apply keeps_none_delay].
Qed.

Lemma keeps_none_BurnWire env : keeps (atmost p 0) (BurnWire env).
Proof.
  unfold BurnWire, digitalWrite.
  apply keeps_none_bind; [apply keeps_none_log | intros _].
  apply keeps_none_bind; [apply keeps_none_emit, p_digital | intros _].
  apply keeps_none_bind; [apply keeps_none_delay | intros _].
  apply keeps_none_bind; [apply keeps_none_emit, p_digital | intros _].
  apply keeps_none_log.
Qed.

Lemma keeps_none_readDHT22Values env : keeps (atmost p 0) (readDHT22Values env).
Proof.
  unfold readDHT22Values.
  apply keeps_none_bind.
  - apply keeps_none_leaf. intros w. eexists _, _. split; [reflexivity|].
    right. eexists. split; [reflexivity | apply p_sensor].
  - intros s. apply keeps_none_bind.
    + destruct (over80 (temp s)); [apply keeps_none_BurnWire|].
      apply keeps_ret, atmost_refl.
    + intros _. destruct (isnan (hum s) || isnan (temp s)); apply keeps_none_log.
Qed.

Lemma keeps_none_sample_until env fuel minutes :
  keeps (atmost p 0) (sample_until env fuel minutes).
Proof.
  unfold sample_until.
  apply keeps_while; [apply atmost_refl | apply atmost_none_trans | |].
  - apply keeps_none_leaf. intros w. eexists _, _. split; [reflexivity|]. now left.
  - apply keeps_none_bind; [apply keeps_none_readDHT22Values | intros _].
    apply keeps_none_delay.
Qed.

Lemma keeps_none_MagneticSwitch env fuel : keeps (atmost p 0) (MagneticSwitch env fuel).
Proof.
  assert (Hread : keeps (atmost p 0)
            (b <- digitalRead_magswitch env ;; act (set_switchState b))).
  { apply keeps_none_leaf. intros w. eexists tt, _. split; [reflexivity|].
    right. eexists. split; [reflexivity | apply p_read]. }
  unfold MagneticSwitch, digitalWrite.
  apply keeps_none_bind; [apply keeps_none_emit, p_digital | intros _].
  apply keeps_none_bind; [exact Hread | intros _].
  apply keeps_none_bind.
  - apply keeps_while; [apply atmost_refl | apply atmost_none_trans | | exact Hread].
    apply keeps_none_leaf. intros w. eexists _, _. split; [reflexivity|]. now left.
  - intros _. apply keeps_none_bind; [apply keeps_none_emit, p_digital | intros _].
    apply keeps_none_log.
Qed.

Lemma keeps_none_mark_time : keeps (atmost p 0) mark_time.
Proof.
  apply keeps_none_leaf. intros w. eexists tt, _. split; [reflexivity|]. now left.
Qed.
Lemma keeps_atmost_descent b cfg env fuel :
  keeps (atmost p b) (WakeupGoPro env) ->
  keeps (atmost p b) (descent cfg env fuel).
Proof.
  intros Hwake. unfold descent.
  apply (keeps_atmost_bind p 0 b); [apply keeps_none_MagneticSwitch | intros _].
  replace b with (b + 0)%nat by lia.
  apply keeps_atmost_bind; [exact Hwake | intros _].
  apply keeps_none_bind; [apply keeps_none_mark_time | intros _].
  apply keeps_none_bind; [apply keeps_none_log | intros _].
  apply keeps_none_bind; [apply keeps_none_sample_until | intros _].
  apply keeps_none_log.
Qed.

Lemma keeps_atmost_recording c cfg env fuel :
  (forall ok,
     count p ([Log (Text "Turning lights on")] ++ ramp_events 5 (upto 0 255)
              ++ command_events StartUrl "Start recording failed"
                   "GoPro started recording" ok) <= c)%nat ->
  keeps (atmost p c) (recording cfg env fuel).
Proof.
  intros Hc w.
  destruct (recording_prefix_run cfg env fuel w) as (w1 & -> & T1 & _).
  assert (Hrest : keeps (atmost p 0)
            (mark_time ;; sample_until env fuel (recordingTime cfg))).
  { apply keeps_none_bind; [apply keeps_none_mark_time | intros _].
    apply keeps_none_sample_until. }
  replace c with (c + 0)%nat by lia.
  eapply atmost_trans; [|apply Hrest].
  eexists. split; [exact T1 | apply Hc].
Qed.

Lemma keeps_atmost_recovery d env :
  (forall ok, count p (recovery_events ok) <= d)%nat ->
  keeps (atmost p d) (recovery env).
Proof.
  intros Hd w. destruct (recovery_run env w) as (w' & -> & T & _).
  eexists. split; [exact T | apply Hd].
Qed.

Lemma keeps_atmost_program a b c d cfg env fuel :
  keeps (atmost p a) (setup env fuel) ->
  keeps (atmost p b) (WakeupGoPro env) ->
  (forall ok,
     count p ([Log (Text "Turning lights on")] ++ ramp_events 5 (upto 0 255)
              ++ command_events StartUrl "Start recording failed"
                   "GoPro started recording" ok) <= c)%nat ->
  (forall ok, count p (recovery_events ok) <= d)%nat ->
  keeps (atmost p (a + (b + (c + d)))) (program cfg env fuel).
Proof.
  intros Ha Hb Hc Hd. unfold program, loop_.
  apply keeps_atmost_bind; [exact Ha | intros _].
  apply keeps_atmost_bind; [now apply keeps_atmost_descent | intros _].
  apply keeps_atmost_bind; [now apply keeps_atmost_recording | intros _].
  now apply keeps_atmost_recovery.
Qed.
End NoRetry.

Lemma keeps_none_setup_prologue p env fuel :
  count p setup_prologue = 0%nat -> p (SdBegin (sd_card env)) = false ->
  p (WifiStatus (wifi_status env)) = false ->
  (forall m, p (Log m) = false) ->
  forall n, keeps (atmost p n) (ConnectToGoPro env fuel) ->
  keeps (atmost p n) (setup env fuel).
Proof.
  intros Hpro Hsd Hws Hlog n Hconn w.
  destruct (setup_prologue_run env fuel w) as (w1 & [T1 _ _ _ _ _] & ->).
  assert (Hrest : keeps (atmost p (0 + (0 + n)))
            ((ok <- SD_begin env ;;
              if negb ok
              then printInLog env (Text "SD card failed, or not present in MEM Shield") ;; spin
              else initializeLog) ;;
             (act (emit (WifiStatus (wifi_status env))) ;;
              if wifi_status env =? WL_NO_SHIELD
              then printInLog env (Text "WiFi chipset not present in Arduino") ;; spin
              else ret tt) ;;
             ConnectToGoPro env fuel)).
  { apply keeps_atmost_bind.
    - apply keeps_none_bind.
      + apply keeps_none_leaf. intros w0. eexists _, _. split; [reflexivity|].
        right. eexists. split; [reflexivity | exact Hsd].
      + intros ok. destruct (negb ok).
        * apply keeps_none_bind; [now apply keeps_none_printInLog | intros _].
          apply keeps_stop, atmost_refl.
        * apply keeps_none_initializeLog.
    - intros _. apply keeps_atmost_bind; [|intros _; exact Hconn].
      apply keeps_none_bind.
      + apply keeps_none_leaf. intros w0. eexists _, _. split; [reflexivity|].
        right. eexists. split; [reflexivity | exact Hws].
      + intros _. destruct (wifi_status env =? WL_NO_SHIELD).
        * apply keeps_none_bind; [now apply keeps_none_printInLog | intros _].
          apply keeps_stop, atmost_refl.
        * apply keeps_ret, atmost_refl. }
  specialize (Hrest w1). cbn [Nat.add] in Hrest.
  replace n with (0 + n)%nat by lia.
  eapply atmost_trans; [|exact Hrest].
  eexists. split; [exact T1 | lia].
Qed.

Lemma keeps_atmost_ConnectToGoPro p env fuel :
  (forall m, p (Log m) = false) ->
  (forall pin b, pin = LEDwifi \/ pin = lightsPin -> p (DigitalWrite pin b) = false) ->
  (forall ms, p (Delay ms) = false) ->
  keeps (atmost p (if p (WifiBegin (wifi_begin env)) then 1 else 0))
        (ConnectToGoPro env fuel).
Proof.
  intros Hlog Hdw Hdelay.
  assert (Hblink : forall pin ms (l : list Z),
            pin = LEDwifi \/ pin = lightsPin ->
            keeps (atmost p 0)
              (for_each (fun _ => digitalWrite pin true ;; delay ms ;;
                                  digitalWrite pin false ;; delay ms) l)).
  { intros pin ms l Hpin.
    apply keeps_for_each; [apply atmost_refl | apply atmost_none_trans | intros _].
    unfold digitalWrite.
    apply keeps_none_bind; [apply keeps_none_emit; now apply Hdw | intros _].
    apply keeps_none_bind; [now apply keeps_none_delay | intros _].
    apply keeps_none_bind; [apply keeps_none_emit; now apply Hdw | intros _].
    now apply keeps_none_delay. }
  unfold ConnectToGoPro.
  replace (if p (WifiBegin (wifi_begin env)) then 1 else 0)%nat
    with ((if p (WifiBegin (wifi_begin env)) then 1 else 0) + 0)%nat by lia.
  apply keeps_atmost_bind.
  - intros w. cbn [final]. exists [WifiBegin (wifi_begin env)]. split; [reflexivity|].
    cbn. destruct (p _); lia.
  - intros _. apply keeps_none_bind.
    + apply keeps_while; [apply atmost_refl | apply atmost_none_trans | |].
      * apply keeps_none_leaf. intros w. eexists _, _. split; [reflexivity|]. now left.
      * apply keeps_none_bind; [now apply keeps_none_printInLog | intros _].
        apply keeps_none_bind.
        -- intros w. apply (keeps_none_printInLog p env (StatusCode (status w)) (Hlog _) w).
        -- intros _. apply Hblink. now left.
    + intros _. apply keeps_none_bind; [now apply keeps_none_printInLog | intros _].
      apply keeps_none_bind.
      * unfold digitalWrite. apply keeps_none_emit, Hdw. now left.
      * intros _. apply Hblink. now right.
Qed.

Lemma keeps_atmost_WakeupGoPro p env (n : nat) :
  (forall m, p (Log m) = false) -> (forall ms, p (Delay ms) = false) ->
  p (UdpBegin localPort) = false -> p UdpFlush = false -> p UdpStop = false ->
  (forall payload, count p [UdpPacket broadCastIp wolPort payload] <= n)%nat ->
  keeps (atmost p n) (WakeupGoPro env).
Proof.
  intros Hlog Hdelay Hb Hf Hs Hpkt.
  unfold WakeupGoPro, SendMagicPacket.
  apply (keeps_atmost_bind p 0 n); [now apply keeps_none_emit | intros _].
  apply (keeps_atmost_bind p 0 n); [now apply keeps_none_delay | intros _].
  replace n with (n + 0)%nat by lia.
  apply keeps_atmost_bind.
  - intros w. cbn [final]. eexists. split; [reflexivity | apply Hpkt].
  - intros _.
    apply keeps_none_bind; [now apply keeps_none_delay | intros _].
    apply keeps_none_bind; [now apply keeps_none_emit | intros _].
    apply keeps_none_bind; [now apply keeps_none_delay | intros _].
    apply keeps_none_bind; [now apply keeps_none_emit | intros _].
    apply keeps_none_bind; [now apply keeps_none_delay | intros _].
    now apply keeps_none_printInLog.
Qed.

(** X10. No run of the sketch ever retries: whatever the environment does,
    it attempts at most two connections to the camera (one to start, one to
    stop), sends at most one wake packet and calls WiFi.begin at most once. *)
Theorem no_retry_ever (cfg : Config) (env : Env) (fuel : nat) (w : World) :
  let tr := new_events w (final (program cfg env fuel w)) in
  (count is_connect tr <= 2)%nat
  /\ (count is_wake tr <= 1)%nat
  /\ (count is_wifi_begin tr <= 1)%nat.
Proof.
  intros tr.
  assert (Hcount : forall p n,
            keeps (atmost p n) (program cfg env fuel) -> (count p tr <= n)%nat).
  { intros p n H. destruct (H w) as (evs & T & N).
    subst tr. now rewrite (new_events_app _ _ _ T). }
  split; [|split].
  - apply Hcount.
    apply (keeps_atmost_program is_connect) with (a := 0%nat) (b := 0%nat)
                                                 (c := 1%nat) (d := 1%nat);
      try reflexivity.
    + apply keeps_none_setup_prologue; try reflexivity.
      apply (keeps_atmost_ConnectToGoPro is_connect); reflexivity.
    + apply keeps_atmost_WakeupGoPro; reflexivity.
    + intros []; vm_compute; lia.
    + intros []; vm_compute; lia.
  - apply Hcount.
    apply (keeps_atmost_program is_wake) with (a := 0%nat) (b := 1%nat)
                                              (c := 0%nat) (d := 0%nat);
      try reflexivity.
    + apply keeps_none_setup_prologue; try reflexivity.
      apply (keeps_atmost_ConnectToGoPro is_wake); reflexivity.
    + apply keeps_atmost_WakeupGoPro; reflexivity.
    + intros []; vm_compute; lia.
    + intros []; vm_compute; lia.
  - apply Hcount.
    apply (keeps_atmost_program is_wifi_begin) with (a := 1%nat) (b := 0%nat)
                                                    (c := 0%nat) (d := 0%nat);
      try reflexivity.
    + apply keeps_none_setup_prologue; try reflexivity.
      apply (keeps_atmost_ConnectToGoPro is_wifi_begin); reflexivity.
    + apply keeps_atmost_WakeupGoPro; reflexivity.
    + intros []; vm_compute; lia.
    + intros []; vm_compute; lia.
Qed.

(** ** Nothing happens before the trigger *)

Lemma poll_loop_low env : forall (fuel : nat) (w : World),
  match while fuel (fun w => Ret (switchState w) w)
          (b <- digitalRead_magswitch env ;; act (set_switchState b)) w with
  | Ret _ w' =>
      exists evs, trace w' = trace w ++ evs /\ count is_action evs = 0%nat
        /\ (switchState w = false \/ (0 < count is_low_read evs)%nat)
  | Stop _ w' => atmost is_action 0 w w'
  end.
Proof.
  induction fuel as [|fuel IH]; intros w; cbn [while].
  - apply atmost_refl.
  - unfold bind at 1. destruct (switchState w) eqn:Hs.
    + unfold bind at 1 2, digitalRead_magswitch, act.
      set (b := magswitch env (n_poll w)).
      set (w1 := set_switchState b (emit (DigitalRead magswitchPin b) (next_poll w))).
      specialize (IH w1).
      destruct (while fuel _ _ w1) as [[] w'|r w'].
      * destruct IH as (evs & T & N & Hlow).
        exists (DigitalRead magswitchPin b :: evs).
        subst w1. cbn in T. rewrite <- app_assoc in T. split; [exact T|].
        split; [exact N|]. right.
        destruct Hlow as [Hb|Hpos].
        -- cbn in Hb. rewrite Hb. cbn. lia.
        -- cbn [count]. destruct (is_low_read _); lia.
      * destruct IH as (evs & T & N).
        exists (DigitalRead magswitchPin b :: evs).
        subst w1. cbn in T. rewrite <- app_assoc in T. split; [exact T | exact N].
    + exists []. split; [now rewrite app_nil_r|]. split; [reflexivity | now left].
Qed.

Lemma MagneticSwitch_low env fuel w :
  match MagneticSwitch env fuel w with
  | Ret _ w' =>
      exists evs, trace w' = trace w ++ evs /\ count is_action evs = 0%nat
        /\ (0 < count is_low_read evs)%nat
  | Stop _ w' => atmost is_action 0 w w'
  end.
Proof.
  unfold MagneticSwitch.
  unfold bind at 1, digitalWrite at 1, act at 1.
  unfold bind at 1. unfold bind at 1, digitalRead_magswitch at 1, act at 1.
  cbn [n_poll emit].
  set (b := magswitch env (n_poll w)).
  set (w1 := set_switchState b
               (emit (DigitalRead magswitchPin b)
                  (next_poll (emit (DigitalWrite LEDmagswitch false) w)))).
  pose proof (poll_loop_low env fuel w1) as Hloop.
  unfold bind at 1.
  destruct (while fuel _ _ w1) as [[] w2|r w2].
  - destruct Hloop as (evs & T & N & Hlow).
    destruct (runs_seq (digitalWrite LEDmagswitch true)
                (printInLog env (Text "Magnetic switch activated"))
                w2 _ _ (runs_digitalWrite _ _ w2)) as (w3 & [T3 _ _ _ _ _] & ->).
    destruct (runs_printInLog env (Text "Magnetic switch activated") w3)
      as (w4 & -> & [T4 _ _ _ _ _]).
    exists ([DigitalWrite LEDmagswitch false; DigitalRead magswitchPin b] ++ evs ++
            [DigitalWrite LEDmagswitch true; Log (Text "Magnetic switch activated")]).
    rewrite T4, T3, T. subst w1. cbn [trace set_switchState emit next_poll].
    split; [now rewrite <- !app_assoc|].
    rewrite !count_app, N. split; [reflexivity|].
    destruct Hlow as [Hb|Hpos].
    + cbn in Hb. rewrite Hb. cbn. lia.
    + lia.
  - destruct Hloop as (evs & T & N).
    exists ([DigitalWrite LEDmagswitch false; DigitalRead magswitchPin b] ++ evs).
    rewrite T. subst w1. cbn [trace set_switchState emit next_poll].
    split; [now rewrite <- !app_assoc|].
    rewrite count_app, PeanoNat.Nat.le_0_r in *. now rewrite N.
Qed.

Lemma final_bind {A B} (m : M A) (k : A -> M B) w :
  final (bind m k w)
  = match m w with Ret a w1 => final (k a w1) | Stop _ w1 => w1 end.
Proof. unfold bind. now destruct (m w). Qed.

Lemma bind_assoc_pt {A B C} (m : M A) (f : A -> M B) (g : B -> M C) w :
  bind (bind m f) g w = bind m (fun a => bind (f a) g) w.
Proof. unfold bind. now destruct (m w). Qed.

Lemma count_pos_lookup p tr :
  (0 < count p tr)%nat -> exists j e, tr !! j = Some e /\ p e = true.
Proof.
  induction tr as [|x tr IH]; cbn [count]; [lia|].
  destruct (p x) eqn:Hx.
  - intros _. now exists 0%nat, x.
  - intros H. destruct (IH H) as (j & e & Hj & He). now exists (S j), e.
Qed.

Lemma low_read_inv e : is_low_read e = true -> e = DigitalRead magswitchPin false.
Proof.
  destruct e as [| | |pin b| | | | | | | | | | | | | | | |]; try discriminate.
  destruct b; [discriminate|]. cbn. intros H. apply Z.eqb_eq in H. now subst.
Qed.

Lemma setup_no_action env fuel : keeps (atmost is_action 0) (setup env fuel).
Proof.
  apply keeps_none_setup_prologue; try reflexivity.
  apply (keeps_atmost_ConnectToGoPro is_action); try reflexivity.
  intros pin b [-> | ->]; now destruct b.
Qed.

(** X11. In every run of the sketch, whatever the mission proper does to the
    outside world (dimming the lights, burning the wire, sampling the
    sensor, any UDP or TCP traffic) happens after the magnetic switch has
    been read LOW. *)
Theorem nothing_before_trigger (cfg : Config) (env : Env) (fuel : nat) (w : World) :
  let tr := new_events w (final (program cfg env fuel w)) in
  forall i e,
    tr !! i = Some e -> is_action e = true ->
    exists j, (j < i)%nat /\ tr !! j = Some (DigitalRead magswitchPin false).
Proof.
  intros tr.
  assert (Hquiet : forall w', atmost is_action 0 w w' ->
            forall i e, new_events w w' !! i = Some e -> is_action e = true -> False).
  { intros w' (evs & T & N) i e Hi He. rewrite (new_events_app _ _ _ T) in Hi.
    assert (N0 : count is_action evs = 0%nat) by lia.
    rewrite (count_zero_lookup _ _ N0 _ _ Hi) in He. discriminate. }
  assert (Hgrow : forall cfg0 fuel0,
            keeps (atmost (fun _ => false) 0)
              (WakeupGoPro env ;; mark_time ;;
               printInLog env (Text "blue_eye on its way to the deep sea") ;;
               sample_until env fuel0 (dropTime cfg0) ;;
               printInLog env (Text "blue_eye arrived to the seabed"))).
  { intros cfg0 fuel0.
    apply keeps_none_bind; [apply keeps_atmost_WakeupGoPro; reflexivity | intros _].
    apply keeps_none_bind; [now apply keeps_none_mark_time | intros _].
    apply keeps_none_bind; [now apply keeps_none_printInLog | intros _].
    apply keeps_none_bind; [now apply keeps_none_sample_until | intros _].
    now apply keeps_none_printInLog. }
  assert (Hrest : keeps (atmost (fun _ => false) 0)
            (bind (WakeupGoPro env ;; mark_time ;;
                   printInLog env (Text "blue_eye on its way to the deep sea") ;;
                   sample_until env fuel (dropTime cfg) ;;
                   printInLog env (Text "blue_eye arrived to the seabed"))
                  (fun _ => recording cfg env fuel ;; recovery env))).
  { apply keeps_none_bind; [apply Hgrow | intros _].
    apply keeps_none_bind; [|intros _].
    - apply (keeps_atmost_recording (fun _ => false)); try reflexivity.
      intros ok. clear. induction (_ ++ _) as [|x l IH]; [reflexivity | exact IH].
    - apply (keeps_atmost_recovery (fun _ => false)).
      intros ok. clear. induction (recovery_events ok) as [|x l IH];
        [reflexivity | exact IH]. }
  assert (Hcase : atmost is_action 0 w (final (program cfg env fuel w))
            \/ exists e12 e3,
                 trace (final (program cfg env fuel w)) = trace w ++ e12 ++ e3
                 /\ count is_action e12 = 0%nat
                 /\ (0 < count is_low_read e12)%nat).
  { unfold program, loop_, descent.
    pose proof (setup_no_action env fuel w) as Hsetup.
    rewrite final_bind.
    destruct (setup env fuel w) as [[] w1|r w1]; cbn [final] in Hsetup;
      [|now left].
    pose proof (MagneticSwitch_low env fuel w1) as Hswitch.
    rewrite bind_assoc_pt, final_bind.
    destruct (MagneticSwitch env fuel w1) as [[] w2|r w2].
    2:{ left. exact (atmost_none_trans _ _ _ _ Hsetup Hswitch). }
    destruct Hswitch as (e2 & T2 & N2 & Hlow).
    destruct Hsetup as (e1 & T1 & N1).
    right. destruct (Hrest w2) as (e3 & T3 & _).
    exists (e1 ++ e2), e3. rewrite T3, T2, T1, <- !app_assoc.
    split; [reflexivity|]. rewrite !count_app. split; lia. }
  subst tr. intros i e Hi He.
  destruct Hcase as [Hnone|(e12 & e3 & T & N & Hlow)].
  - destruct (Hquiet _ Hnone i e Hi He).
  - rewrite (new_events_app _ _ _ T) in Hi |- *.
    destruct (count_pos_lookup _ _ Hlow) as (j & x & Hj & Hx).
    apply low_read_inv in Hx. subst x.
    exists j.
    assert (Hjlen : (j < length e12)%nat) by (now apply lookup_lt_Some in Hj).
    split.
    + destruct (decide (i < length e12)%nat) as [Hlt|Hge]; [|lia].
      exfalso. rewrite lookup_app_l in Hi by lia.
      rewrite (count_zero_lookup _ _ N _ _ Hi) in He. discriminate.
    + now rewrite lookup_app_l by lia.
Qed.

Lemma nothing_before_trigger_witness :
  let tr := new_events (boot None) (final (program short_mission env_calm 5 (boot None))) in
  exists j, (j < 35)%nat /\ tr !! j = Some (DigitalRead magswitchPin false).
Proof.
  apply (nothing_before_trigger short_mission env_calm 5 (boot None) 35%nat
           (UdpBegin localPort)).
  - vm_compute. reflexivity.
  - reflexivity.
Defined.

(** ** The terminal idle *)

Lemma last_write_app pin a b :
  last_write pin (a ++ b)
  = match last_write pin b with
    | Some e => Some e
    | None => last_write pin a
    end.
Proof.
  induction a as [|x a IH]; cbn [app last_write].
  - now destruct (last_write pin b).
  - rewrite IH. now destruct (last_write pin b).
Qed.

Lemma last_write_recovery ok :
  last_write lightsPin (recovery_events ok) = Some (DigitalWrite lightsPin false)
  /\ last_write burnwirePin (recovery_events ok) = Some (DigitalWrite burnwirePin false)
  /\ last_write LEDwifi (recovery_events ok) = Some (DigitalWrite LEDwifi false)
  /\ last_write LEDmagswitch (recovery_events ok)
     = Some (DigitalWrite LEDmagswitch false).
Proof. destruct ok; repeat split; vm_compute; reflexivity. Qed.

(** X12. A mission that reaches the terminal idle leaves every actuator
    off: the last write to the lights, to the burn wire, to the link LED and
    to the trigger LED is a digital LOW. *)
Theorem terminal_idle_is_inert
    (cfg : Config) (env : Env) (fuel : nat) (w w' : World)
    (Hdone : program cfg env fuel w = Stop Idle w') :
  let tr := new_events w w' in
  last_write lightsPin tr = Some (DigitalWrite lightsPin false)
  /\ last_write burnwirePin tr = Some (DigitalWrite burnwirePin false)
  /\ last_write LEDwifi tr = Some (DigitalWrite LEDwifi false)
  /\ last_write LEDmagswitch tr = Some (DigitalWrite LEDmagswitch false).
Proof.
  intros tr. subst tr.
  pose proof (program_shape cfg env fuel w) as Hshape. rewrite Hdone in Hshape.
  destruct Hshape as (w3 & (pre & Hpre & _) & Htr).
  rewrite Hpre, <- app_assoc in Htr.
  rewrite (new_events_app _ _ _ Htr), !last_write_app.
  destruct (last_write_recovery (connect env (n_connect w3))) as (-> & -> & -> & ->).
  now repeat split.
Qed.

Lemma terminal_idle_is_inert_witness :
  let tr := new_events (boot None) (final (program short_mission env_hot 5 (boot None))) in
  last_write lightsPin tr = Some (DigitalWrite lightsPin false)
  /\ last_write burnwirePin tr = Some (DigitalWrite burnwirePin false)
  /\ last_write LEDwifi tr = Some (DigitalWrite LEDwifi false)
  /\ last_write LEDmagswitch tr = Some (DigitalWrite LEDmagswitch false).
Proof.
  apply (terminal_idle_is_inert short_mission env_hot 5 (boot None)
           (final (program short_mission env_hot 5 (boot None)))).
  vm_compute. reflexivity.
Defined.

(** ** Failed sensor reads *)

(** X13. readDHT22Values never stops the mission and never retries within
    the call: it takes one sample, and the last thing it does is to request
    one log entry, the failure message when the humidity or the temperature
    is NaN and the two values otherwise. *)
Theorem failed_read_is_logged_and_skipped (env : Env) (w : World) :
  let s := dht env (n_dht w) in
  exists w',
    readDHT22Values env w = Ret tt w'
    /\ n_dht w' = S (n_dht w)
    /\ count is_sample (new_events w w') = 1%nat
    /\ last (new_events w w')
       = Some (Log (if isnan (hum s) || isnan (temp s)
                    then Text "Failed to read from DHT sensor"
                    else Reading (hum s) (temp s)))
    /\ clock w' = clock w + took s + (if over80 (temp s) then 600000 else 0).
Proof.
  intros s.
  destruct (readDHT22Values_run env w) as (w' & Hrun & Htr & Hclk & _ & Hdht & _).
  exists w'. split; [exact Hrun|]. split; [exact Hdht|].
  rewrite (new_events_app _ _ _ Htr). fold s. split; [|split].
  - unfold sample_events. cbn [count is_sample]. rewrite count_app.
    destruct (over80 _); reflexivity.
  - unfold sample_events.
    change (Sensor (hum s) (temp s) ::
            (if over80 (temp s) then burn_events else []) ++ [Log (sample_log s)])
      with ((Sensor (hum s) (temp s) ::
             (if over80 (temp s) then burn_events else [])) ++ [Log (sample_log s)]).
    now rewrite last_snoc.
  - rewrite Hclk. unfold overhead. fold s.
    change (oneMinute * 10) with 600000. lia.
Qed.

(** ** What a returning computation has done *)

Lemma waited_app a b : waited (a ++ b) = waited a + waited b.
Proof.
  induction a as [|e a IH]; cbn [app waited]; [lia|].
  destruct e; lia.
Qed.

Lemma bind_Ret_inv {A B} (m : M A) (k : A -> M B) w b w' :
  bind m k w = Ret b w' -> exists a w1, m w = Ret a w1 /\ k a w1 = Ret b w'.
Proof.
  unfold bind. destruct (m w) as [a w1|r w1]; [|discriminate].
  intros H. now exists a, w1.
Qed.

Lemma lands_eq c c' {A} (m : M A) : lands c m -> c = c' -> lands c' m.
Proof. now intros H <-. Qed.

Lemma lands_bind a b {A B} (m : M A) (k : A -> M B) :
  lands a m -> (forall x, lands b (k x)) -> lands (a + b) (bind m k).
Proof.
  intros Hm Hk w y w' H.
  apply bind_Ret_inv in H as (x & w1 & H1 & H2).
  destruct (Hm _ _ _ H1) as (e1 & T1 & N1 & W1).
  destruct (Hk x _ _ _ H2) as (e2 & T2 & N2 & W2).
  exists (e1 ++ e2). rewrite T2, T1, count_app, waited_app, N1, N2, W1, W2.
  now rewrite app_assoc.
Qed.

Lemma lands_leaf c {A} (m : M A) :
  (forall w, exists a w' evs,
     m w = Ret a w' /\ trace w' = trace w ++ evs
     /\ count is_sample evs = 0%nat /\ waited evs = c) ->
  lands c m.
Proof.
  intros H w a w' Hrun.
  destruct (H w) as (a0 & w0 & evs & E & T & N & W).
  rewrite E in Hrun. injection Hrun as _ <-. now exists evs.
Qed.

Lemma lands_stop c {A} r : lands c (Stop r : M A).
Proof. intros w a w' H. discriminate H. Qed.

Lemma lands_silent {A} (m : M A) :
  (forall w, exists a w', m w = Ret a w' /\ trace w' = trace w) -> lands 0 m.
Proof.
  intros H. apply lands_leaf. intros w. destruct (H w) as (a & w' & E & T).
  exists a, w', []. rewrite T, app_nil_r. now repeat split.
Qed.

Lemma lands_emit e : is_sample e = false -> lands (waited [e]) (act (emit e)).
Proof.
  intros He. apply lands_leaf. intros w. exists tt, (emit e w), [e].
  repeat split. cbn [count]. now rewrite He.
Qed.

Lemma lands_delay ms : lands ms (delay ms).
Proof.
  apply lands_leaf. intros w. eexists tt, _, [Delay ms].
  repeat split. cbn [waited]. lia.
Qed.

Lemma lands_printInLog env m : lands 0 (printInLog env m).
Proof.
  apply lands_leaf. intros w.
  destruct (runs_printInLog env m w) as (w' & Hrun & [T _ _ _ _ _]).
  now exists tt, w', [Log m].
Qed.

Lemma lands_for_each c {A} (body : A -> M unit) (l : list A) :
  (forall x, lands c (body x)) -> lands (c * Z.of_nat (length l)) (for_each body l).
Proof.
  intros Hb. induction l as [|x l IH]; cbn [for_each length].
  - eapply lands_eq; [apply lands_silent|lia]. intros w. now exists tt, w.
  - eapply lands_eq; [apply lands_bind; [apply Hb | intros _; exact IH] | lia].
Qed.

Lemma lands_while fuel (cond : M bool) (body : M unit) :
  lands 0 cond -> lands 0 body -> lands 0 (while fuel cond body).
Proof.
  intros Hc Hb. induction fuel as [|fuel IH]; cbn [while].
  - apply lands_stop.
  - apply (lands_bind 0 0); [exact Hc|]. intros [|].
    + apply (lands_bind 0 0); [exact Hb | intros _; exact IH].
    + apply lands_silent. intros w. now exists tt, w.
Qed.

Lemma lands_blink pin ms (l : list Z) :
  is_sample (DigitalWrite pin true) = false ->
  lands (2 * ms * Z.of_nat (length l))
    (for_each (fun _ => digitalWrite pin true ;; delay ms ;;
                        digitalWrite pin false ;; delay ms) l).
Proof.
  intros _. eapply lands_eq; [apply lands_for_each; intros _|reflexivity].
  unfold digitalWrite.
  eapply lands_eq.
  - apply lands_bind; [now apply lands_emit | intros _].
    apply lands_bind; [apply lands_delay | intros _].
    apply lands_bind; [now apply lands_emit | intros _; apply lands_delay].
  - cbn [waited]. lia.
Qed.

(** ConnectToGoPro returns only when WiFi.begin reported the link up, and
    then without an iteration of its loop. *)
Lemma lands_ConnectToGoPro env fuel : lands 3000 (ConnectToGoPro env fuel).
Proof.
  unfold ConnectToGoPro.
  eapply lands_eq.
  - apply lands_bind.
    { apply lands_leaf. intros w. eexists tt, _, [WifiBegin (wifi_begin env)].
      now repeat split. }
    intros _. apply lands_bind.
    { intros w a w' H.
      destruct (decide (status w = WL_CONNECTED)) as [Hs|Hs].
      - destruct fuel as [|f]; [discriminate H|].
        rewrite (connect_loop_exit _ f w Hs) in H. injection H as _ <-.
        exists []. now rewrite app_nil_r.
      - destruct (connect_loop_spins env fuel w Hs) as (w'' & E & _).
        rewrite E in H. discriminate H. }
    intros _. apply lands_bind; [apply lands_printInLog | intros _].
    apply lands_bind; [unfold digitalWrite; now apply lands_emit | intros _].
    now apply (lands_blink lightsPin 500 (upto 0 3)).
  - reflexivity.
Qed.

Lemma lands_setup env fuel : lands 3000 (setup env fuel).
Proof.
  unfold setup, pinMode, digitalWrite.
  eapply lands_eq.
  - do 8 (apply lands_bind; [now apply lands_emit | intros _]).
    apply lands_bind; [apply lands_printInLog | intros _].
    apply lands_bind; [now apply lands_emit | intros _].
    apply lands_bind.
    { apply lands_leaf. intros w. eexists tt, _, [RtcSet 0 0 0]. now repeat split. }
    intros _. apply lands_bind; [now apply lands_emit | intros _].
    apply lands_bind.
    { apply lands_bind.
      - apply lands_leaf. intros w. eexists _, _, [SdBegin (sd_card env)].
        now repeat split.
      - intros ok. destruct (negb ok).
        + apply (lands_bind 0 0); [apply lands_printInLog | intros _; apply lands_stop].
        + apply lands_silent. intros w. unfold initializeLog.
          destruct (logfile w); now eexists tt, _. }
    intros _. apply lands_bind.
    { apply lands_bind; [now apply lands_emit | intros _].
      destruct (wifi_status env =? WL_NO_SHIELD).
      - apply (lands_bind 0 0); [apply lands_printInLog | intros _; apply lands_stop].
      - apply lands_silent. intros w. now exists tt, w. }
    intros _. apply lands_ConnectToGoPro.
  - reflexivity.
Qed.

Lemma lands_MagneticSwitch env fuel : lands 0 (MagneticSwitch env fuel).
Proof.
  assert (Hread : lands 0 (b <- digitalRead_magswitch env ;; act (set_switchState b))).
  { apply lands_leaf. intros w.
    eexists tt, _, [DigitalRead magswitchPin (magswitch env (n_poll w))].
    now repeat split. }
  unfold MagneticSwitch, digitalWrite.
  eapply lands_eq.
  - apply lands_bind; [now apply lands_emit | intros _].
    apply lands_bind; [exact Hread | intros _].
    apply lands_bind.
    { apply lands_while; [|exact Hread].
      apply lands_silent. intros w. now eexists _, w. }
    intros _. apply lands_bind; [now apply lands_emit | intros _].
    apply lands_printInLog.
  - reflexivity.
Qed.

Lemma lands_WakeupGoPro env : lands 10000 (WakeupGoPro env).
Proof.
  unfold WakeupGoPro, SendMagicPacket.
  eapply lands_eq.
  - apply lands_bind; [now apply lands_emit | intros _].
    apply lands_bind; [apply lands_delay | intros _].
    apply lands_bind; [now apply lands_emit | intros _].
    apply lands_bind; [apply lands_delay | intros _].
    apply lands_bind; [now apply lands_emit | intros _].
    apply lands_bind; [apply lands_delay | intros _].
    apply lands_bind; [now apply lands_emit | intros _].
    apply lands_bind; [apply lands_delay | intros _].
    apply lands_printInLog.
  - reflexivity.
Qed.

(** ** The trace of a wait loop that returned *)

Lemma sample_until_trace env minutes : forall (fuel : nat) (w w' : World),
  sample_until env fuel minutes w = Ret tt w' ->
  exists ss, trace w' = trace w ++ wait_events ss.
Proof.
  induction fuel as [|fuel IH]; intros w w' H.
  - discriminate H.
  - rewrite sample_until_step in H.
    destruct (ulong (clock w) <? deadline minutes w).
    + destruct (iteration_run env w) as (w1 & H1 & T1 & _).
      rewrite (bind_Ret _ _ _ _ _ H1) in H.
      destruct (IH _ _ H) as (ss & T).
      exists (dht env (n_dht w) :: ss).
      rewrite T, T1. cbn [wait_events flat_map]. now rewrite <- !app_assoc.
    + injection H as <-. exists []. now rewrite app_nil_r.
Qed.

Lemma descent_trace cfg env fuel w w' :
  descent cfg env fuel w = Ret tt w' ->
  exists pre ss,
    trace w' = trace w ++ pre ++ wait_events ss
                 ++ [Log (Text "blue_eye arrived to the seabed")]
    /\ count is_sample pre = 0%nat /\ waited pre = 10000.
Proof.
  unfold descent. intros H.
  apply bind_Ret_inv in H as ([] & w1 & H1 & H).
  apply bind_Ret_inv in H as ([] & w2 & H2 & H).
  rewrite mark_time_then in H.
  apply bind_Ret_inv in H as ([] & w3 & H3 & H).
  apply bind_Ret_inv in H as ([] & w4 & H4 & H).
  destruct (lands_MagneticSwitch env fuel _ _ _ H1) as (e1 & T1 & N1 & W1).
  destruct (lands_WakeupGoPro env _ _ _ H2) as (e2 & T2 & N2 & W2).
  destruct (lands_printInLog env _ _ _ _ H3) as (e3 & T3 & N3 & W3).
  destruct (sample_until_trace env _ _ _ _ H4) as (ss & T4).
  destruct (runs_printInLog env (Text "blue_eye arrived to the seabed") w4)
    as (w5 & H5 & [T5 _ _ _ _ _]).
  rewrite H5 in H. injection H as <-.
  exists (e1 ++ e2 ++ e3), ss.
  rewrite T5, T4, T3. cbn [trace set_time_now]. rewrite T2, T1.
  rewrite !count_app, !waited_app, N1, N2, N3, W1, W2, W3.
  rewrite <- !app_assoc. now repeat split.
Qed.

Lemma recording_trace cfg env fuel w w' :
  recording cfg env fuel w = Ret tt w' ->
  exists ss,
    trace w' = trace w ++ [Log (Text "Turning lights on")]
                 ++ ramp_events 5 (upto 0 255)
                 ++ command_events StartUrl "Start recording failed"
                      "GoPro started recording" (connect env (n_connect w))
                 ++ wait_events ss.
Proof.
  intros H.
  destruct (recording_prefix_run cfg env fuel w) as (w1 & E & T1 & _).
  rewrite E, mark_time_then in H.
  destruct (sample_until_trace env _ _ _ _ H) as (ss & T).
  exists ss. rewrite T. cbn [trace set_time_now]. rewrite T1.
  now rewrite <- !app_assoc.
Qed.

(** The trace of every mission that reached the terminal idle: a stretch
    without samples (setup, trigger, wake-up), then the descent wait loop,
    the arrival, the recording wait loop and the recovery. *)
Lemma completed_mission_shape cfg env fuel w w' :
  program cfg env fuel w = Stop Idle w' ->
  exists pre ss1 ok1 ss2 ok2,
    new_events w w' = pre ++ rest_of_descent ss1 ok1 ss2 ok2
    /\ count is_sample pre = 0%nat /\ waited pre = 13000.
Proof.
  unfold program, loop_. intros H.
  destruct (steady_then_idle grew_blocks _ _ _ _ (steady_blocks_setup env fuel) H)
    as ([] & w1 & H1 & _ & Ha).
  destruct (steady_then_idle grew_blocks _ _ _ _ (steady_blocks_descent cfg env fuel) Ha)
    as ([] & w2 & H2 & _ & Hb).
  destruct (steady_then_idle grew_blocks _ _ _ _ (steady_blocks_recording cfg env fuel) Hb)
    as ([] & w3 & H3 & _ & Hc).
  destruct (lands_setup env fuel _ _ _ H1) as (e1 & T1 & N1 & W1).
  destruct (descent_trace _ _ _ _ _ H2) as (e2 & ss1 & T2 & N2 & W2).
  destruct (recording_trace _ _ _ _ _ H3) as (ss2 & T3).
  destruct (recovery_run env w3) as (w'' & H4 & T4 & _).
  rewrite H4 in Hc. injection Hc as <-.
  exists (e1 ++ e2), ss1, (connect env (n_connect w2)), ss2, (connect env (n_connect w3)).
  split; [|rewrite count_app, waited_app, N1, N2, W1, W2; now split].
  apply new_events_app. rewrite T4, T3, T2, T1.
  unfold rest_of_descent, rest_of_recording, seabed_events.
  rewrite <- !app_assoc. reflexivity.
Qed.

(** ** A faulting sample in a completed mission *)








(** ** The delays of a completed mission *)

Lemma faults_none_of_samples tr : count is_sample tr = 0%nat -> faults tr = 0%nat.
Proof.
  unfold faults. induction tr as [|e tr IH]; cbn [count]; [reflexivity|].
  destruct e; cbn [is_sample is_fault]; try exact IH. discriminate.
Qed.

Lemma wait_events_budget ss :
  count is_sample (wait_events ss) = length ss
  /\ waited (wait_events ss)
     = oneMinute * Z.of_nat (length ss)
       + oneMinute * 10 * Z.of_nat (faults (wait_events ss)).
Proof.
  induction ss as [|s ss [IHn IHw]]; [now split|].
  change (wait_events (s :: ss))
    with ((sample_events s ++ [Delay oneMinute]) ++ wait_events ss).
  unfold faults in *. rewrite !count_app, !waited_app, IHn, IHw.
  rewrite (faults_sample s : count is_fault (sample_events s) = _).
  unfold sample_events. cbn [count is_sample is_fault waited length].
  rewrite count_app, waited_app.
  destruct (over80 (temp s)); cbn; split; lia.
Qed.

(** X8. In every mission that reaches the terminal idle, whatever the
    environment did, the milliseconds asked of delay() add up to 627025
    (3000 blinking the lights at the end of setup, 10000 waking the camera,
    1275 ramping the lights up, 12750 ramping them down and 600000 holding
    the final release) plus one minute for each sample taken plus ten
    minutes for each sample above 80 degrees.  Only the arguments of
    delay() are counted, not the time the other calls take. *)
Theorem mission_delay_budget
    (cfg : Config) (env : Env) (fuel : nat) (w w' : World)
    (Hdone : program cfg env fuel w = Stop Idle w') :
  let tr := new_events w w' in
  waited tr
  = 627025 + oneMinute * Z.of_nat (count is_sample tr)
    + oneMinute * 10 * Z.of_nat (faults tr).
Proof.
  intros tr. subst tr.
  destruct (completed_mission_shape _ _ _ _ _ Hdone)
    as (pre & ss1 & ok1 & ss2 & ok2 & -> & Npre & Wpre).
  destruct (wait_events_budget ss1) as [N1 W1].
  destruct (wait_events_budget ss2) as [N2 W2].
  assert (Hsea : count is_sample (seabed_events ok1) = 0%nat
                 /\ faults (seabed_events ok1) = 0%nat
                 /\ waited (seabed_events ok1) = 1275)
    by (destruct ok1; repeat split; vm_compute; reflexivity).
  assert (Hrec : count is_sample (recovery_events ok2) = 0%nat
                 /\ faults (recovery_events ok2) = 0%nat
                 /\ waited (recovery_events ok2) = 612750)
    by (destruct ok2; repeat split; vm_compute; reflexivity).
  destruct Hsea as (Ns & Fs & Ws). destruct Hrec as (Nr & Fr & Wr).
  pose proof (faults_none_of_samples _ Npre) as Fpre.
  unfold rest_of_descent, rest_of_recording, faults in *.
  rewrite !count_app, !waited_app, Npre, Wpre, N1, W1, N2, W2, Ns, Ws, Nr, Wr, Fpre, Fs, Fr.
  assert (HI : oneMinute = 60000) by reflexivity.
  lia.
Qed.

Lemma mission_delay_budget_witness :
  let tr := new_events (boot None)
              (final (program short_mission env_hot 5 (boot None))) in
  waited tr
  = 627025 + oneMinute * Z.of_nat (count is_sample tr)
    + oneMinute * 10 * Z.of_nat (faults tr).
Proof.
  apply (mission_delay_budget short_mission env_hot 5 (boot None)
           (final (program short_mission env_hot 5 (boot None)))).
  vm_compute. reflexivity.
Defined.
